(** * net_core: connection admission and lifecycle

    A shallow embedding of the three classes of the repository,
    [Connection] (lib/connection), [ConnectionRequestEventArgs]
    (lib/connection_request_event_args) and [SessionServer]
    (lib/session_server), followed by the properties of the admission
    protocol, of the registry of live connections and of the liveness
    check.

    JavaScript objects are records kept in a store and named by their
    index; a method is a computation in a state-and-exception monad over
    that store.  The transport (sockjs), the clock and the listener table
    inherited from EventGameSystem are the environment: what the code asks
    of them is recorded in a trace of effects. *)

From Stdlib Require Import ZArith String List Bool Lia.
From stdpp Require Import base list.
Import ListNotations.

Local Open Scope string_scope.
Local Open Scope list_scope.
Local Open Scope Z_scope.

(** ** Values *)

(** References to objects of the store: the index of the object. *)
Abbreviation ConnRef := nat (only parsing).
Abbreviation SocketRef := nat (only parsing).
(** A message callback given to [onMessage] is known by its identity. *)
Abbreviation HandlerRef := nat (only parsing).
(** Credentials and the player entity are opaque to this code. *)
Abbreviation Opaque := nat (only parsing).
(** The value produced by [JSON.parse]. *)
Definition Json := string.

(** [this.sessionServer]: there is one session server in a world. *)
Inductive ServerRef := ThisServer.

(** The records have definitional eta: an object rebuilt from its own
    fields is the object itself. *)
Set Primitive Projections.

(** Error descriptor [{id, msg}]. *)
Record ErrorDescriptor := mkError { id : Z; msg : string }.

(** [Connection.Errors] *)
Definition SERVER_FULL : ErrorDescriptor := {| id := 100; msg := "Server Full" |}.
Definition SESSION_TERMINATED : ErrorDescriptor :=
  {| id := 101; msg := "Session Terminated" |}.

(** [const CONNECTION_TIMEOUT = 1000 * 5] *)
Definition CONNECTION_TIMEOUT : Z := 1000 * 5.

(** The values [isAlive] can return: [a && b] yields [a] itself when [a] is
    falsy, so a cleared socket makes it return [null]. *)
Inductive JsValue := JsNull | JsBool (b : bool).

Definition truthy (v : JsValue) : bool :=
  match v with JsNull => false | JsBool b => b end.

(** What a [throw] carries: [new Error(message)] raised by the argument
    checks of the code, or the [TypeError] the language raises when a
    property of [null] is read. *)
Inductive Exception :=
| Error (message : string)
| TypeError (message : string)
| SyntaxError (message : string).

Inductive Outcome (A : Type) :=
| Return (a : A)
| Throw (e : Exception).
Arguments Return {A} a.
Arguments Throw {A} e.

(** ** Objects *)

Record Connection := mkConnection {
  sessionServer : option ServerRef;
  messageHandler : option HandlerRef;
  credentials : option Opaque;
  socket : option SocketRef;
  player : option Opaque;
  keepAlive : Z
}.

Record ConnectionRequestEventArgs := mkArgs {
  _isAllowed : bool;
  _isDenied : bool;
  connection : option ConnRef;
  error : ErrorDescriptor
}.

(** What a listener of CONNECTION_REQUEST does with the arguments object it
    receives: a sequence of calls of [allow()] and [deny(err)]. *)
Inductive Call :=
| CallAllow
| CallDeny (err : option ErrorDescriptor).

Definition Subscriber := list Call.

(** The fields of [SessionServer] the admission protocol uses, and the
    CONNECTION_REQUEST entry of the listener table it inherits. *)
Record SessionServer := mkServer {
  connectionList : list ConnRef;
  connectionRequestArgs : ConnectionRequestEventArgs;
  requestListeners : list Subscriber
}.

(** The transport's socket, as far as this code sees it: whether [close]
    emits 'close' before it returns (websocket) or later (polling
    transports), whether it is still open, and the listeners registered
    with [socket.on]. *)
Inductive ReadyState := OPEN | CLOSING | CLOSED.

Record Socket := mkSocket {
  syncClose : bool;
  readyState : ReadyState;
  closeListeners : list ConnRef;
  dataListeners : list ConnRef
}.

(** [SessionServer.Events] *)
Inductive EventName := CONNECTION_REQUEST | CONNECT | DISCONNECT.

Inductive Payload :=
| RequestArgs
| Conn (c : ConnRef).

(** Effects on the environment, in the order they happen. *)
Inductive Effect :=
| SocketClose (s : SocketRef) (code : Z) (reason : string)
| SocketWrite (s : SocketRef) (data : string)
| Fire (e : EventName) (payload : Payload)
| HandlerCall (h : HandlerRef) (c : ConnRef) (parsed : Json).

Record World := mkWorld {
  conns : list Connection;
  sockets : list Socket;
  server : SessionServer;
  clock : Z;
  trace : list Effect;
  console : list string
}.

Unset Primitive Projections.

(** ** The monad of methods: state that survives a [throw] *)

Definition JS (A : Type) : Type := World -> Outcome A * World.

Definition ret {A} (a : A) : JS A := fun w => (Return a, w).

Definition throw {A} (e : Exception) : JS A := fun w => (Throw e, w).

Definition bind {A B} (m : JS A) (k : A -> JS B) : JS B :=
  fun w =>
    match m w with
    | (Return a, w') => k a w'
    | (Throw e, w') => (Throw e, w')
    end.

Declare Scope js_scope.
Delimit Scope js_scope with js.
Notation "x <- m ;; k" := (bind m (fun x => k))
  (at level 100, m at next level, k at level 200, right associativity) : js_scope.
Notation "m ;; k" := (bind m (fun _ => k))
  (at level 100, k at level 200, right associativity) : js_scope.
Local Open Scope js_scope.

Definition get : JS World := fun w => (Return w, w).
Definition modify (f : World -> World) : JS unit := fun w => (Return tt, f w).

Definition outcome {A} (m : JS A) (w : World) : Outcome A := fst (m w).
Definition after {A} (m : JS A) (w : World) : World := snd (m w).

Fixpoint forEach {A} (l : list A) (f : A -> JS unit) : JS unit :=
  match l with
  | [] => ret tt
  | x :: l' => f x ;; forEach l' f
  end.

(** Field updates. *)
Definition with_conns (f : list Connection -> list Connection) (w : World) : World :=
  {| conns := f (conns w); sockets := sockets w; server := server w;
     clock := clock w; trace := trace w; console := console w |}.
Definition with_sockets (f : list Socket -> list Socket) (w : World) : World :=
  {| conns := conns w; sockets := f (sockets w); server := server w;
     clock := clock w; trace := trace w; console := console w |}.
Definition with_server (f : SessionServer -> SessionServer) (w : World) : World :=
  {| conns := conns w; sockets := sockets w; server := f (server w);
     clock := clock w; trace := trace w; console := console w |}.
Definition with_trace (f : list Effect -> list Effect) (w : World) : World :=
  {| conns := conns w; sockets := sockets w; server := server w;
     clock := clock w; trace := f (trace w); console := console w |}.
Definition with_console (f : list string -> list string) (w : World) : World :=
  {| conns := conns w; sockets := sockets w; server := server w;
     clock := clock w; trace := trace w; console := f (console w) |}.
Definition with_clock (f : Z -> Z) (w : World) : World :=
  {| conns := conns w; sockets := sockets w; server := server w;
     clock := f (clock w); trace := trace w; console := console w |}.

Definition set_sessionServer (v : option ServerRef) (c : Connection) : Connection :=
  {| sessionServer := v; messageHandler := messageHandler c;
     credentials := credentials c; socket := socket c; player := player c;
     keepAlive := keepAlive c |}.
Definition set_socket (v : option SocketRef) (c : Connection) : Connection :=
  {| sessionServer := sessionServer c; messageHandler := messageHandler c;
     credentials := credentials c; socket := v; player := player c;
     keepAlive := keepAlive c |}.
Definition set_messageHandler (v : option HandlerRef) (c : Connection) : Connection :=
  {| sessionServer := sessionServer c; messageHandler := v;
     credentials := credentials c; socket := socket c; player := player c;
     keepAlive := keepAlive c |}.

Definition set_connectionList (l : list ConnRef) (s : SessionServer) : SessionServer :=
  {| connectionList := l; connectionRequestArgs := connectionRequestArgs s;
     requestListeners := requestListeners s |}.
Definition set_connectionRequestArgs (a : ConnectionRequestEventArgs)
    (s : SessionServer) : SessionServer :=
  {| connectionList := connectionList s; connectionRequestArgs := a;
     requestListeners := requestListeners s |}.
Definition set_requestListeners (l : list Subscriber) (s : SessionServer) : SessionServer :=
  {| connectionList := connectionList s;
     connectionRequestArgs := connectionRequestArgs s; requestListeners := l |}.

Definition set_readyState (r : ReadyState) (s : Socket) : Socket :=
  {| syncClose := syncClose s; readyState := r;
     closeListeners := closeListeners s; dataListeners := dataListeners s |}.
Definition add_closeListener (c : ConnRef) (s : Socket) : Socket :=
  {| syncClose := syncClose s; readyState := readyState s;
     closeListeners := closeListeners s ++ [c]; dataListeners := dataListeners s |}.
Definition add_dataListener (c : ConnRef) (s : Socket) : Socket :=
  {| syncClose := syncClose s; readyState := readyState s;
     closeListeners := closeListeners s; dataListeners := dataListeners s ++ [c] |}.

Arguments with_conns f w /.
Arguments with_sockets f w /.
Arguments with_server f w /.
Arguments with_trace f w /.
Arguments with_console f w /.
Arguments with_clock f w /.
Arguments set_connectionList l s /.
Arguments set_connectionRequestArgs a s /.
Arguments set_requestListeners l s /.

(** ** Primitive operations of the environment *)

(** [console.log(line)] *)
Definition console_log (line : string) : JS unit :=
  modify (with_console (fun l => l ++ [line])).

Definition effect (e : Effect) : JS unit :=
  modify (with_trace (fun t => t ++ [e])).

(** [Date.now()] *)
Definition Date_now : JS Z := fun w => (Return (clock w), w).

(** Reading a field of the object behind a reference.  A reference that
    names no object behaves as [undefined]: reading a property of it
    raises a TypeError. *)
Definition getConn (c : ConnRef) : JS Connection :=
  fun w =>
    match conns w !! c with
    | Some o => (Return o, w)
    | None => (Throw (TypeError "Cannot read properties of undefined"), w)
    end.

Definition updConn (c : ConnRef) (f : Connection -> Connection) : JS unit :=
  o <- getConn c ;; modify (with_conns (fun h => <[c := f o]> h)).

Definition getSocket (s : SocketRef) : JS Socket :=
  fun w =>
    match sockets w !! s with
    | Some o => (Return o, w)
    | None => (Throw (TypeError "Cannot read properties of undefined"), w)
    end.

Definition updSocket (s : SocketRef) (f : Socket -> Socket) : JS unit :=
  o <- getSocket s ;; modify (with_sockets (fun h => <[s := f o]> h)).

(** [new]: the object is placed at the end of the store. *)
Definition alloc (o : Connection) : JS ConnRef :=
  fun w => (Return (length (conns w)), with_conns (fun h => h ++ [o]) w).

(** [this.fire(event, payload)] for CONNECT and DISCONNECT: the notification
    is recorded. *)
Definition fire (e : EventName) (p : Payload) : JS unit := effect (Fire e p).

(** ** ConnectionRequestEventArgs *)

(** [constructor()] *)
Definition new_ConnectionRequestEventArgs : ConnectionRequestEventArgs :=
  {| _isAllowed := false;
     _isDenied := false;
     connection := None;
     error := {| id := id SERVER_FULL; msg := msg SERVER_FULL |} |}.

(** [initialize(connection)] *)
Definition initialize (conn : option ConnRef) (this : ConnectionRequestEventArgs)
    : Outcome ConnectionRequestEventArgs :=
  match conn with
  | None => Throw (Error "ConnectEventArgs.initialize - Connection object was null.")
  | Some c =>
      Return {| _isAllowed := false;
                _isDenied := false;
                connection := Some c;
                error := {| id := id SERVER_FULL; msg := msg SERVER_FULL |} |}
  end.

(** [deny(err)] *)
Definition deny (err : option ErrorDescriptor) (this : ConnectionRequestEventArgs)
    : Outcome ConnectionRequestEventArgs :=
  match err with
  | None =>
      Throw (Error
        "ConnectEventArgs.deny - Invalid error code specified during connection attempt.")
  | Some e =>
      Return {| _isAllowed := _isAllowed this;
                _isDenied := true;
                connection := connection this;
                error := {| id := id e; msg := msg e |} |}
  end.

(** [allow()] *)
Definition allow (this : ConnectionRequestEventArgs) : ConnectionRequestEventArgs :=
  {| _isAllowed := true;
     _isDenied := _isDenied this;
     connection := connection this;
     error := error this |}.

(** [get isDenied()] *)
Definition isDenied (this : ConnectionRequestEventArgs) : bool :=
  _isDenied this || negb (_isAllowed this).

(** [get isAllowed()] *)
Definition isAllowed (this : ConnectionRequestEventArgs) : bool :=
  _isAllowed this.

(** [this.connectionRequestArgs.connection = null] *)
Definition clear_connection (this : ConnectionRequestEventArgs)
    : ConnectionRequestEventArgs :=
  {| _isAllowed := _isAllowed this;
     _isDenied := _isDenied this;
     connection := None;
     error := error this |}.

(** A method of the one arguments object the server owns, run in place. *)
Definition onArgs (f : ConnectionRequestEventArgs -> Outcome ConnectionRequestEventArgs)
    : JS unit :=
  fun w =>
    match f (connectionRequestArgs (server w)) with
    | Return a => (Return tt, with_server (set_connectionRequestArgs a) w)
    | Throw e => (Throw e, w)
    end.

Definition call (c : Call) : JS unit :=
  match c with
  | CallAllow => onArgs (fun a => Return (allow a))
  | CallDeny err => onArgs (deny err)
  end.

(** [this.fire(SessionServer.Events.CONNECTION_REQUEST, this.connectionRequestArgs)]:
    the listeners run one after the other, in the order of registration, on
    the shared arguments object; an exception raised in a listener leaves
    the broadcast. *)
Definition fire_CONNECTION_REQUEST : JS unit :=
  effect (Fire CONNECTION_REQUEST RequestArgs) ;;
  w <- get ;;
  forEach (requestListeners (server w)) (fun sub => forEach sub call).

(** ** SessionServer: removal *)

(** [constructor()] *)
Definition new_SessionServer : SessionServer :=
  {| connectionList := [];
     connectionRequestArgs := new_ConnectionRequestEventArgs;
     requestListeners := [] |}.

(** [Array.prototype.indexOf]: the first index holding the reference, or -1. *)
Fixpoint indexOf (l : list ConnRef) (x : ConnRef) : Z :=
  match l with
  | [] => -1
  | y :: l' =>
      if Nat.eqb y x then 0
      else let i := indexOf l' x in if i =? -1 then -1 else i + 1
  end.

(** [Array.prototype.splice(start, deleteCount)] for a start that is not
    negative. *)
Definition splice (l : list ConnRef) (start : Z) (deleteCount : nat) : list ConnRef :=
  take (Z.to_nat start) l ++ drop (Z.to_nat start + deleteCount) l.

(** [removeConnection(connection)] *)
Definition removeConnection (conn : option ConnRef) : JS unit :=
  match conn with
  | None => throw (Error "SessionServer.removeConnection - No connection was specified.")
  | Some c =>
      w <- get ;;
      let index := indexOf (connectionList (server w)) c in
      if index =? -1 then
        console_log
          "SessionServer.removeConnection - Specified connection could not be found."
      else
        modify (with_server (fun s =>
                  set_connectionList (splice (connectionList s) index 1) s)) ;;
        fire DISCONNECT (Conn c)
  end.

(** ** Connection *)

(** [_onSocketClosed()] *)
Definition _onSocketClosed (this : ConnRef) : JS unit :=
  updConn this (set_socket None) ;;
  o <- getConn this ;;
  match sessionServer o with
  | Some ThisServer => removeConnection (Some this)
  | None => ret tt
  end.

(** The transport emits 'close' on a socket: the listeners registered with
    [socket.on('close', ...)] run in the order of registration. *)
Definition emit_close (s : SocketRef) : JS unit :=
  o <- getSocket s ;;
  forEach (closeListeners o) _onSocketClosed.

(** [socket.close(code, reason)]: the call is recorded; an open socket
    leaves the OPEN state, and emits 'close' before returning when its
    transport does so. *)
Definition socket_close (s : SocketRef) (code : Z) (reason : string) : JS unit :=
  effect (SocketClose s code reason) ;;
  o <- getSocket s ;;
  match readyState o with
  | OPEN =>
      if syncClose o then
        updSocket s (set_readyState CLOSED) ;; emit_close s
      else
        updSocket s (set_readyState CLOSING)
  | _ => ret tt
  end.

(** The transport reports the end of a socket (the client went away, or a
    [close] requested earlier completed): 'close' is emitted once. *)
Definition transport_close (s : SocketRef) : JS unit :=
  o <- getSocket s ;;
  match readyState o with
  | CLOSED => ret tt
  | _ => updSocket s (set_readyState CLOSED) ;; emit_close s
  end.

(** [socket.write(data)] *)
Definition socket_write (s : SocketRef) (data : string) : JS unit :=
  effect (SocketWrite s data).

(** [constructor(sessionServer, socket)] *)
Definition new_Connection (srv : option ServerRef) (sock : option SocketRef)
    : JS ConnRef :=
  match srv with
  | None =>
      throw (Error "Cannot create connection without a valid session server object.")
  | Some sv =>
      match sock with
      | None => throw (Error "Cannot create connection without a valid socket.")
      | Some s =>
          now <- Date_now ;;
          this <- alloc {| sessionServer := Some sv;
                           messageHandler := None;
                           credentials := None;
                           socket := Some s;
                           player := None;
                           keepAlive := now |} ;;
          updSocket s (add_closeListener this) ;;
          updSocket s (add_dataListener this) ;;
          ret this
      end
  end.

(** [disconnect(err)]: [err.id] is read only when the socket is still
    there, and reading it from [null] raises a TypeError before [close] is
    called. *)
Definition disconnect (this : ConnRef) (err : option ErrorDescriptor) : JS unit :=
  o <- getConn this ;;
  match socket o with
  | Some s =>
      match err with
      | None => throw (TypeError "Cannot read properties of null (reading 'id')")
      | Some e =>
          socket_close s (id e) (msg e) ;;
          updConn this (set_sessionServer None) ;;
          updConn this (set_socket None)
      end
  | None => ret tt
  end.

(** [onMessage(cb)] *)
Definition onMessage (this : ConnRef) (cb : option HandlerRef) : JS unit :=
  updConn this (set_messageHandler cb).

(** [send(data)] *)
Definition send (this : ConnRef) (data : string) : JS unit :=
  o <- getConn this ;;
  match socket o with
  | Some s => socket_write s data
  | None => ret tt
  end.

(** [isAlive()] *)
Definition isAlive (this : ConnRef) : JS JsValue :=
  o <- getConn this ;;
  match socket o with
  | None => ret JsNull
  | Some _ =>
      now <- Date_now ;;
      ret (JsBool (now - keepAlive o <? CONNECTION_TIMEOUT))
  end.

Section ReceiveData.

(** [JSON.parse]: the parsed value, or nothing where it raises a
    SyntaxError. *)
Variable JSON_parse : string -> option Json.

(** [_onReceiveData(msg)] of the Connection that has a message handler. *)
Definition _onReceiveData (this : ConnRef) (data : string) : JS unit :=
  o <- getConn this ;;
  match messageHandler o with
  | Some h =>
      match JSON_parse data with
      | Some parsedData => effect (HandlerCall h this parsedData)
      | None => throw (SyntaxError "Unexpected token in JSON")
      end
  | None => ret tt
  end.

End ReceiveData.


(** ** SessionServer: admission *)

(** [_onConnectionAttempt(socket)] *)
Definition _onConnectionAttempt (sock : option SocketRef) : JS unit :=
  console_log "detected connection attempt" ;;
  conn <- new_Connection (Some ThisServer) sock ;;
  onArgs (initialize (Some conn)) ;;
  fire_CONNECTION_REQUEST ;;
  onArgs (fun a => Return (clear_connection a)) ;;
  w <- get ;;
  let args := connectionRequestArgs (server w) in
  if isDenied args then
    console_log ("connection attempt denied: " ++ msg (error args))%string ;;
    match sock with
    | Some s => socket_close s (id (error args)) (msg (error args))
    | None => throw (TypeError "Cannot read properties of null (reading 'close')")
    end
  else
    console_log "connection attempt approved" ;;
    modify (with_server (fun s =>
              set_connectionList (connectionList s ++ [conn]) s)) ;;
    fire CONNECT (Conn conn).

(** ** The environment and the reachable worlds *)

(** The transport accepts a socket: a new socket object, open, without
    listeners. *)
Definition transport_accept (sync : bool) : JS SocketRef :=
  fun w =>
    (Return (length (sockets w)),
     with_sockets (fun h => h ++ [ {| syncClose := sync;
                                      readyState := OPEN;
                                      closeListeners := [];
                                      dataListeners := [] |} ]) w).

(** What can happen to a session server: the transport accepts a socket and
    emits 'connection'; [_onConnectionAttempt], [removeConnection] and
    [disconnect] are called; the transport closes a socket; listeners of
    CONNECTION_REQUEST are registered or removed; time passes. *)
Inductive Step :=
| NewSocket (sync : bool)
| OnConnectionAttempt (sock : option SocketRef)
| RemoveConnection (conn : option ConnRef)
| Disconnect (c : ConnRef) (err : option ErrorDescriptor)
| TransportClose (s : SocketRef)
| Listeners (subs : list Subscriber)
| Tick (dt : Z).

Definition step (st : Step) : JS unit :=
  match st with
  | NewSocket sync => _ <- transport_accept sync ;; ret tt
  | OnConnectionAttempt sock => _onConnectionAttempt sock
  | RemoveConnection conn => removeConnection conn
  | Disconnect c err => disconnect c err
  | TransportClose s => transport_close s
  | Listeners subs => modify (with_server (set_requestListeners subs))
  | Tick dt => modify (with_clock (fun t => t + dt))
  end.

(** A session server just constructed, at time [t]. *)
Definition initial (t : Z) : World :=
  {| conns := []; sockets := []; server := new_SessionServer;
     clock := t; trace := []; console := [] |}.

(** A step can only name objects that exist: a method is called on, and a
    socket or a connection is passed as, a reference to an object of the
    store. *)
Definition admissible (w : World) (st : Step) : bool :=
  match st with
  | OnConnectionAttempt (Some s) => Nat.ltb s (length (sockets w))
  | RemoveConnection (Some c) => Nat.ltb c (length (conns w))
  | Disconnect c _ => Nat.ltb c (length (conns w))
  | TransportClose s => Nat.ltb s (length (sockets w))
  | _ => true
  end.

Definition exec (w : World) (st : Step) : World :=
  if admissible w st then after (step st) w else w.

Definition run (steps : list Step) (w : World) : World :=
  fold_left exec steps w.

(** The worlds a session server can be in. *)
Definition reachable (w : World) : Prop :=
  exists t steps, run steps (initial t) = w.

(** The notifications of a trace. *)
Definition approved (w : World) (c : ConnRef) : Prop :=
  In (Fire CONNECT (Conn c)) (trace w).

Definition removed (w : World) (c : ConnRef) : Prop :=
  In (Fire DISCONNECT (Conn c)) (trace w).

(** A connection has disconnected once its socket reference is cleared,
    which [disconnect] and [_onSocketClosed] both do. *)
Definition disconnected (w : World) (c : ConnRef) : Prop :=
  exists o, conns w !! c = Some o /\ socket o = None.

Definition live (w : World) (c : ConnRef) : Prop :=
  In c (connectionList (server w)).

(** ** Vocabulary of the statements *)

(** The arguments of the [deny] calls of a broadcast, in order. *)
Fixpoint denies (calls : list Call) : list (option ErrorDescriptor) :=
  match calls with
  | [] => []
  | CallAllow :: r => denies r
  | CallDeny err :: r => err :: denies r
  end.

Definition is_allow (c : Call) : bool :=
  match c with CallAllow => true | CallDeny _ => false end.

(** The subscriber calls [allow()]. *)
Definition allows (sub : Subscriber) : bool := existsb is_allow sub.

(** The arguments object after a call, and after a sequence of calls, where
    no call throws ([deny(null)] does). *)
Definition called (a : ConnectionRequestEventArgs) (c : Call)
    : ConnectionRequestEventArgs :=
  match c with
  | CallAllow => allow a
  | CallDeny err =>
      match deny err a with
      | Return a' => a'
      | Throw _ => a
      end
  end.

Definition settled (calls : list Call) (a : ConnectionRequestEventArgs)
    : ConnectionRequestEventArgs :=
  fold_left called calls a.

(** The arguments object as [initialize(c)] leaves it. *)
Definition initialized (c : ConnRef) : ConnectionRequestEventArgs :=
  {| _isAllowed := false; _isDenied := false; connection := Some c;
     error := SERVER_FULL |}.

(** The socket the transport has just accepted. *)
Definition accepted_socket (sync : bool) : Socket :=
  {| syncClose := sync; readyState := OPEN; closeListeners := []; dataListeners := [] |}.

(** The object [new Connection(this, s)] builds at time [t]. *)
Definition built_connection (s : SocketRef) (t : Z) : Connection :=
  {| sessionServer := Some ThisServer; messageHandler := None; credentials := None;
     socket := Some s; player := None; keepAlive := t |}.

(** The world in which [_onConnectionAttempt(s)] reads the verdict: the
    Connection is built and listens to the socket, the listeners have made
    their calls, the reference of the arguments object is cleared. *)
Definition arbitrated (w : World) (s : SocketRef) (sk : Socket) : World :=
  {| conns := conns w ++ [built_connection s (clock w)];
     sockets := <[s := add_dataListener (length (conns w))
                         (add_closeListener (length (conns w)) sk)]> (sockets w);
     server :=
       {| connectionList := connectionList (server w);
          connectionRequestArgs :=
            clear_connection
              (settled (concat (requestListeners (server w)))
                       (initialized (length (conns w))));
          requestListeners := requestListeners (server w) |};
     clock := clock w;
     trace := trace w ++ [Fire CONNECTION_REQUEST RequestArgs];
     console := console w ++ ["detected connection attempt"] |}.

(** The notifications of the life of a connection. *)
Definition lifecycle (e : Effect) : bool :=
  match e with
  | Fire CONNECT _ | Fire DISCONNECT _ => true
  | _ => false
  end.

(** ** Invariants of the reachable worlds *)

(** The registry agrees with the notifications it has fired, and no
    reference dangles. *)
Record Registry (w : World) : Prop := {
  reg_nodup : List.NoDup (connectionList (server w));
  reg_live : forall c, live w c <-> approved w c /\ ~ removed w c;
  reg_approved : forall c, approved w c -> (c < length (conns w))%nat;
  reg_removed : forall c, removed w c -> (c < length (conns w))%nat;
  reg_socket : forall c o s,
    conns w !! c = Some o -> socket o = Some s -> (s < length (sockets w))%nat;
  reg_listener : forall s sk c,
    sockets w !! s = Some sk -> In c (closeListeners sk) ->
    (c < length (conns w))%nat
}.

(** A Connection that lost its socket while it still held its session
    server is not in the list; [skip] excepts the Connection whose
    [_onSocketClosed] is running. *)
Definition ClosedBut (skip : option ConnRef) (w : World) : Prop :=
  forall c o,
    Some c <> skip ->
    conns w !! c = Some o -> socket o = None ->
    sessionServer o = Some ThisServer -> ~ live w c.

Definition Inv (w : World) : Prop := Registry w /\ ClosedBut None w.

(** Two worlds with the same objects, the same list of connections and the
    same notifications of CONNECT and DISCONNECT. *)
Definition same_core (w w' : World) : Prop :=
  conns w' = conns w /\ sockets w' = sockets w
  /\ connectionList (server w') = connectionList (server w)
  /\ List.filter lifecycle (trace w') = List.filter lifecycle (trace w).

(** Computations that touch neither the objects, nor the list, nor the
    notifications of CONNECT and DISCONNECT. *)
Definition quiet {A} (m : JS A) : Prop := forall w, same_core w (after m w).

(** The Connections of two worlds are the same objects, with the same
    session server references. *)
Definition same_servers (w w' : World) : Prop :=
  length (conns w') = length (conns w)
  /\ forall x o o',
       conns w !! x = Some o -> conns w' !! x = Some o' ->
       sessionServer o' = sessionServer o.

(** The descriptor a broadcast ends with: the error of the last [deny], or
    the default one. *)
Definition final_error (errs : list ErrorDescriptor) : ErrorDescriptor :=
  List.last errs SERVER_FULL.

(** What can become of a Connection object: its socket and its session
    server reference stay or are cleared, the other fields stay. *)
Definition evolved (o o' : Connection) : Prop :=
  keepAlive o' = keepAlive o
  /\ messageHandler o' = messageHandler o
  /\ credentials o' = credentials o
  /\ player o' = player o
  /\ (socket o' = socket o \/ socket o' = None)
  /\ (sessionServer o' = sessionServer o \/ sessionServer o' = None).

(** A later world: every Connection is still there, evolved; the
    notifications of CONNECT and DISCONNECT fired in between are new, each
    fired once, the CONNECT ones for Connections built in between. *)
Definition follows (w w' : World) : Prop :=
  (forall c o, conns w !! c = Some o ->
     exists o', conns w' !! c = Some o' /\ evolved o o')
  /\ exists t,
       List.filter lifecycle (trace w') = List.filter lifecycle (trace w) ++ t
       /\ List.NoDup t
       /\ (forall ev, In ev t -> ~ In ev (List.filter lifecycle (trace w)))
       /\ (forall c, In (Fire CONNECT (Conn c)) t -> (length (conns w) <= c)%nat).

(** Worlds of the scenarios: a subscriber that allows every request, a
    socket of a polling transport (its 'close' comes later) or of a
    websocket transport (its 'close' comes within [close]), and what
    follows the admission of its connection. *)
Definition banned : ErrorDescriptor := {| id := 42; msg := "banned" |}.

Definition w_listening (sync : bool) : World :=
  run [Listeners [[CallAllow]]; NewSocket sync] (initial 0).

Definition w_connected (sync : bool) : World :=
  run [OnConnectionAttempt (Some 0%nat)] (w_listening sync).

Definition w_dropped : World :=
  run [TransportClose 0%nat] (w_connected false).

Definition w_removed : World :=
  run [RemoveConnection (Some 0%nat)] (w_connected false).

Definition w_disconnected (sync : bool) : World :=
  run [Disconnect 0%nat (Some SESSION_TERMINATED)] (w_connected sync).

(** * Properties *)

(** Methods are unfolded by name, not by simplification. *)
Arguments removeConnection : simpl never.
Arguments _onSocketClosed : simpl never.
Arguments emit_close : simpl never.
Arguments socket_close : simpl never.
Arguments transport_close : simpl never.
Arguments new_Connection : simpl never.
Arguments disconnect : simpl never.
Arguments _onConnectionAttempt : simpl never.

(** ** Arrays *)

Lemma indexOf_range l x : -1 <= indexOf l x < Z.of_nat (length l).
Proof.
  induction l as [|y l IH]; simpl; [lia|].
  destruct (Nat.eqb y x); [lia|].
  destruct (Z.eqb_spec (indexOf l x) (-1)); lia.
Qed.

Lemma indexOf_absent l x : indexOf l x = -1 <-> ~ In x l.
Proof.
  induction l as [|y l IH]; simpl; [tauto|].
  destruct (Nat.eqb_spec y x) as [->|Hne].
  - split; [lia | tauto].
  - pose proof (indexOf_range l x).
    destruct (Z.eqb_spec (indexOf l x) (-1)) as [E|E].
    + split; [|auto]. intros _ [?|?]; [congruence|]. tauto.
    + split; [lia|]. intros H1. exfalso. apply E, IH. tauto.
Qed.

Lemma indexOf_app l1 x l2 :
  ~ In x l1 -> indexOf (l1 ++ x :: l2) x = Z.of_nat (length l1).
Proof.
  induction l1 as [|y l1 IH]; simpl; intros Hn.
  - rewrite Nat.eqb_refl. reflexivity.
  - destruct (Nat.eqb_spec y x) as [->|Hne]; [tauto|].
    rewrite IH by tauto.
    destruct (Z.eqb_spec (Z.of_nat (length l1)) (-1)); lia.
Qed.

Lemma In_split_first (x : ConnRef) l :
  In x l -> exists l1 l2, l = l1 ++ x :: l2 /\ ~ In x l1.
Proof.
  induction l as [|y l IH]; simpl; [tauto|].
  intros H. destruct (Nat.eq_dec y x) as [->|Hne].
  - exists [], l. simpl. tauto.
  - destruct IH as (l1 & l2 & -> & Hn); [tauto|].
    exists (y :: l1), l2. simpl. split; [reflexivity|tauto].
Qed.

Lemma splice_one l1 (x : ConnRef) l2 :
  splice (l1 ++ x :: l2) (Z.of_nat (length l1)) 1 = l1 ++ l2.
Proof.
  unfold splice. rewrite Nat2Z.id.
  rewrite take_app_length. f_equal.
  rewrite drop_app_add. reflexivity.
Qed.

(** ** removeConnection *)

Lemma removeConnection_absent w c :
  ~ live w c ->
  removeConnection (Some c) w =
  (Return tt, with_console (fun l => l ++
     ["SessionServer.removeConnection - Specified connection could not be found."]) w).
Proof.
  intros H. apply indexOf_absent in H.
  unfold removeConnection, bind, get. rewrite H. reflexivity.
Qed.

Lemma removeConnection_present w c l1 l2 :
  connectionList (server w) = l1 ++ c :: l2 -> ~ In c l1 ->
  removeConnection (Some c) w =
  (Return tt,
   with_trace (fun t => t ++ [Fire DISCONNECT (Conn c)])
     (with_server (set_connectionList (l1 ++ l2)) w)).
Proof.
  intros E Hn.
  unfold removeConnection, bind, get. rewrite E, indexOf_app by assumption.
  destruct (Z.eqb_spec (Z.of_nat (length l1)) (-1)); [lia|].
  unfold modify, fire, effect, modify, with_server at 1, set_connectionList at 1.
  cbn. rewrite E, splice_one. reflexivity.
Qed.

(** C5. [removeConnection(null)] throws the Error of the argument check and
    changes nothing.  For a connection that is not in [connectionList] the
    call returns, leaves the list and the trace as they are and only writes
    a line to the console.  For a connection that is in the list, its
    first occurrence is taken out, the other entries keep their order, and
    one DISCONNECT notification carrying the connection is fired; a list
    without duplicates no longer holds it. *)
Theorem removeConnection_contract (w : World) (c : ConnRef) :
  removeConnection None w =
    (Throw (Error "SessionServer.removeConnection - No connection was specified."), w)
  /\ (~ live w c ->
      outcome (removeConnection (Some c)) w = Return tt
      /\ server (after (removeConnection (Some c)) w) = server w
      /\ conns (after (removeConnection (Some c)) w) = conns w
      /\ sockets (after (removeConnection (Some c)) w) = sockets w
      /\ trace (after (removeConnection (Some c)) w) = trace w)
  /\ (live w c ->
      exists l1 l2,
        connectionList (server w) = l1 ++ c :: l2 /\ ~ In c l1
        /\ outcome (removeConnection (Some c)) w = Return tt
        /\ connectionList (server (after (removeConnection (Some c)) w)) = l1 ++ l2
        /\ trace (after (removeConnection (Some c)) w)
           = trace w ++ [Fire DISCONNECT (Conn c)]
        /\ conns (after (removeConnection (Some c)) w) = conns w
        /\ sockets (after (removeConnection (Some c)) w) = sockets w
        /\ (List.NoDup (connectionList (server w)) ->
            ~ live (after (removeConnection (Some c)) w) c)).
Proof.
  split; [reflexivity|]. split.
  - intros H. unfold outcome, after. rewrite (removeConnection_absent w c H).
    repeat split.
  - intros H. destruct (In_split_first c _ H) as (l1 & l2 & E & Hn).
    exists l1, l2. unfold outcome, after, live.
    rewrite (removeConnection_present w c l1 l2 E Hn). cbn.
    repeat split; try assumption.
    intros Hd Hin. rewrite E in Hd.
    apply List.NoDup_remove_2 in Hd. exact (Hd Hin).
Qed.

Lemma removeConnection_contract_witness :
  connectionList (server (after (removeConnection (Some 0%nat)) (w_connected false)))
  = []
  /\ trace (after (removeConnection (Some 0%nat)) (w_connected false))
     = trace (w_connected false) ++ [Fire DISCONNECT (Conn 0%nat)]
  /\ trace (after (removeConnection (Some 0%nat)) w_removed) = trace w_removed.
Proof.
  destruct (removeConnection_contract (w_connected false) 0%nat) as (_ & _ & H).
  destruct (removeConnection_contract w_removed 0%nat) as (_ & H' & _).
  destruct H as (l1 & l2 & E & Hn & _ & E1 & E2 & _).
  - vm_compute. tauto.
  - destruct l1 as [|x l1].
    + injection E as <-. split; [exact E1|]. split; [exact E2|].
      apply H'. vm_compute. tauto.
    + exfalso. apply Hn. vm_compute in E. injection E as <- _. left. reflexivity.
Defined.

(** ** Connection: construction, liveness, inbound data *)

Lemma new_Connection_ok w s sk :
  sockets w !! s = Some sk ->
  new_Connection (Some ThisServer) (Some s) w =
  (Return (length (conns w)),
   {| conns := conns w ++ [built_connection s (clock w)];
      sockets := <[s := add_dataListener (length (conns w))
                          (add_closeListener (length (conns w)) sk)]> (sockets w);
      server := server w; clock := clock w; trace := trace w;
      console := console w |}).
Proof.
  intros H. pose proof (lookup_lt_Some _ _ _ H) as Hlt.
  unfold new_Connection, bind, Date_now, alloc, updSocket, bind, getSocket, modify, ret.
  cbn. rewrite H. cbn. rewrite list_lookup_insert_eq by exact Hlt.
  cbn. rewrite list_insert_insert_eq. reflexivity.
Qed.

(** C10. The constructor throws when the session server or the socket is
    null, and then builds nothing.  Given a session server and a socket of
    the transport it returns a new Connection.  Whatever the outcome, the
    store afterwards is the store before, or the store before followed by
    one Connection whose session server and socket are the non-null
    arguments and whose [keepAlive] is the time of the construction. *)
Theorem new_Connection_contract (w : World) (srv : option ServerRef)
    (sock : option SocketRef) :
  (srv = None \/ sock = None ->
     exists m, new_Connection srv sock w = (Throw (Error m), w))
  /\ (forall s sk, srv = Some ThisServer -> sock = Some s -> sockets w !! s = Some sk ->
        outcome (new_Connection srv sock) w = Return (length (conns w))
        /\ conns (after (new_Connection srv sock) w) !! length (conns w)
           = Some (built_connection s (clock w)))
  /\ (conns (after (new_Connection srv sock) w) = conns w
      \/ exists sv s o,
           srv = Some sv /\ sock = Some s
           /\ conns (after (new_Connection srv sock) w) = conns w ++ [o]
           /\ sessionServer o = Some sv /\ socket o = Some s
           /\ keepAlive o = clock w).
Proof.
  split; [|split].
  - intros [-> | ->].
    + eexists. reflexivity.
    + destruct srv; eexists; reflexivity.
  - intros s sk -> -> H. unfold outcome, after.
    rewrite (new_Connection_ok w s sk H). cbn. split; [reflexivity|].
    apply list_lookup_middle. reflexivity.
  - destruct srv as [sv|]; [|left; reflexivity].
    destruct sock as [s|]; [|left; reflexivity].
    right. exists sv, s.
    eexists {| sessionServer := Some sv; messageHandler := None; credentials := None;
               socket := Some s; player := None; keepAlive := clock w |}.
    repeat split.
    unfold after, new_Connection, bind, Date_now, alloc, updSocket, bind, getSocket,
      modify, ret.
    cbn. destruct (sockets w !! s) as [sk|] eqn:E; [|reflexivity].
    cbn. rewrite list_lookup_insert_eq by (eapply lookup_lt_Some; exact E).
    reflexivity.
Qed.

Lemma new_Connection_contract_witness :
  outcome (new_Connection (Some ThisServer) (Some 0%nat)) (w_listening false)
  = Return 0%nat
  /\ (exists m, new_Connection None (Some 0%nat) (w_listening false)
                = (Throw (Error m), w_listening false)).
Proof.
  destruct (new_Connection_contract (w_listening false) (Some ThisServer) (Some 0%nat))
    as (_ & H & _).
  destruct (new_Connection_contract (w_listening false) None (Some 0%nat))
    as (H0 & _ & _).
  split.
  - exact (proj1 (H 0%nat (accepted_socket false) eq_refl eq_refl eq_refl)).
  - exact (H0 (or_introl eq_refl)).
Defined.

Lemma isAlive_run w c o :
  conns w !! c = Some o ->
  isAlive c w =
  (Return (match socket o with
           | None => JsNull
           | Some _ => JsBool (clock w - keepAlive o <? CONNECTION_TIMEOUT)
           end), w).
Proof.
  intros H. unfold isAlive, bind, getConn. rewrite H.
  destruct (socket o); reflexivity.
Qed.





(** ** Connection: disconnect *)

(** C6, as the code has it.  On a Connection whose socket reference is
    already cleared, [disconnect] returns without any effect, whatever its
    argument, null included.  On a Connection that still has its socket,
    [disconnect(null)] fails before anything is closed or cleared, with the
    TypeError of reading [err.id]. *)
Theorem disconnect_null_error (w : World) (c : ConnRef) (o : Connection) :
  conns w !! c = Some o ->
  (socket o = None -> forall err, disconnect c err w = (Return tt, w))
  /\ (socket o <> None ->
        exists m, disconnect c None w = (Throw (TypeError m), w)).
Proof.
  intros H. split.
  - intros Hs err. unfold disconnect, bind, getConn. rewrite H, Hs. reflexivity.
  - intros Hs. unfold disconnect, bind, getConn. rewrite H.
    destruct (socket o); [|congruence]. eexists. reflexivity.
Qed.

Lemma disconnect_null_error_witness :
  disconnect 0%nat None w_dropped = (Return tt, w_dropped)
  /\ exists m, disconnect 0%nat None (w_connected false)
               = (Throw (TypeError m), w_connected false).
Proof.
  split.
  - refine (proj1 (disconnect_null_error w_dropped 0%nat _ eq_refl) eq_refl None).
  - refine (proj2 (disconnect_null_error (w_connected false) 0%nat _ eq_refl) _).
    discriminate.
Defined.

(** C6, as the claim has it, fails: on a Connection the transport has
    already closed, [disconnect(null)] returns normally. *)
Lemma disconnect_null_not_rejected :
  ~ (forall w c, (c < length (conns w))%nat ->
       exists e, outcome (disconnect c None) w = Throw e).
Proof.
  intros H. destruct (H w_dropped 0%nat) as [e He].
  - vm_compute. lia.
  - vm_compute in He. discriminate He.
Qed.

(** ** The broadcast of CONNECTION_REQUEST *)

Lemma forEach_app {A} (l1 l2 : list A) (f : A -> JS unit) w :
  forEach (l1 ++ l2) f w = (forEach l1 f ;; forEach l2 f) w.
Proof.
  revert w. induction l1 as [|x l1 IH]; intros w; [reflexivity|].
  cbn [app forEach]. unfold bind in *.
  destruct (f x w) as [[[]|e] w']; [|reflexivity].
  apply IH.
Qed.

Lemma forEach_concat (subs : list Subscriber) w :
  forEach subs (fun sub => forEach sub call) w = forEach (concat subs) call w.
Proof.
  revert w. induction subs as [|sub subs IH]; intros w; [reflexivity|].
  cbn [concat forEach]. rewrite forEach_app. unfold bind.
  destruct (forEach sub call w) as [[[]|e] w']; [|reflexivity].
  apply IH.
Qed.

Lemma forEach_calls calls errs w :
  denies calls = map Some errs ->
  forEach calls call w =
  (Return tt,
   with_server (set_connectionRequestArgs
                  (settled calls (connectionRequestArgs (server w)))) w).
Proof.
  revert errs w. induction calls as [|c calls IH]; intros errs w H; [reflexivity|].
  destruct c as [|[e|]]; cbn [denies] in H.
  - cbn [forEach]. unfold bind. cbn. rewrite (IH errs _ H). reflexivity.
  - destruct errs as [|e' errs]; [discriminate H|]. injection H as _ H.
    cbn [forEach]. unfold bind. cbn. rewrite (IH errs _ H). reflexivity.
  - destruct errs; discriminate H.
Qed.

Lemma settled_connection calls a : connection (settled calls a) = connection a.
Proof.
  revert a. induction calls as [|[|[e|]] calls IH]; intros a; cbn;
    [reflexivity| | |]; unfold settled in IH; rewrite IH; reflexivity.
Qed.

Lemma settled_isAllowed calls a :
  _isAllowed (settled calls a) = _isAllowed a || existsb is_allow calls.
Proof.
  revert a. induction calls as [|[|[e|]] calls IH]; intros a; cbn;
    [symmetry; apply orb_false_r| | |]; unfold settled in IH; rewrite IH; cbn;
    [destruct (_isAllowed a)| |]; reflexivity.
Qed.

Lemma settled_no_deny calls a :
  denies calls = [] ->
  _isDenied (settled calls a) = _isDenied a /\ error (settled calls a) = error a.
Proof.
  revert a. induction calls as [|[|err] calls IH]; intros a H; cbn.
  - split; reflexivity.
  - apply (IH (allow a) H).
  - discriminate H.
Qed.

Lemma settled_last_deny calls errs e a :
  denies calls = map Some (errs ++ [e]) ->
  _isDenied (settled calls a) = true /\ error (settled calls a) = e.
Proof.
  revert errs a. induction calls as [|[|err] calls IH]; intros errs a H; cbn [denies] in H.
  - destruct errs; discriminate H.
  - apply (IH errs (allow a) H).
  - destruct errs as [|e' errs]; cbn in H; injection H as -> H.
    + destruct (settled_no_deny calls (called a (CallDeny (Some e))) H) as [H1 H2].
      cbn [settled fold_left]. unfold settled in H1, H2. rewrite H1, H2. split; reflexivity.
    + apply (IH errs _ H).
Qed.

(** ** Admission *)

Lemma onConnectionAttempt_arbitrated w s sk errs :
  sockets w !! s = Some sk ->
  denies (concat (requestListeners (server w))) = map Some errs ->
  _onConnectionAttempt (Some s) w =
  (let args := connectionRequestArgs (server (arbitrated w s sk)) in
   if isDenied args then
     console_log ("connection attempt denied: " ++ msg (error args))%string ;;
     socket_close s (id (error args)) (msg (error args))
   else
     console_log "connection attempt approved" ;;
     modify (with_server (fun sv =>
               set_connectionList (connectionList sv ++ [length (conns w)]) sv)) ;;
     fire CONNECT (Conn (length (conns w)))) (arbitrated w s sk).
Proof.
  intros Hs Hd.
  unfold _onConnectionAttempt. unfold bind at 1. cbn [console_log modify].
  unfold bind at 1.
  rewrite (new_Connection_ok _ s sk) by exact Hs. cbn [with_console conns clock].
  unfold bind at 1. cbn [onArgs initialize].
  unfold bind at 1. unfold fire_CONNECTION_REQUEST.
  unfold bind at 1. cbn [effect modify]. unfold bind at 1. cbn [get].
  rewrite forEach_concat. cbn [with_trace with_server server requestListeners
    set_connectionRequestArgs].
  rewrite (forEach_calls _ errs) by exact Hd.
  unfold bind at 1. cbn [onArgs]. unfold bind at 1. cbn [get].
  reflexivity.
Qed.

Lemma allows_concat (subs : list Subscriber) :
  List.filter allows subs <> [] -> existsb is_allow (concat subs) = true.
Proof.
  induction subs as [|sub subs IH]; cbn [List.filter concat]; [congruence|].
  rewrite existsb_app. fold (allows sub). destruct (allows sub); [reflexivity|].
  exact IH.
Qed.

Lemma arbitrated_isDenied_allowed w s sk :
  denies (concat (requestListeners (server w))) = [] ->
  existsb is_allow (concat (requestListeners (server w))) = true ->
  isDenied (connectionRequestArgs (server (arbitrated w s sk))) = false.
Proof.
  intros Hd Ha. unfold isDenied. cbn.
  destruct (settled_no_deny _ (initialized (length (conns w))) Hd) as [H1 _].
  rewrite H1, settled_isAllowed, Ha. reflexivity.
Qed.

(** C4. When exactly one subscriber calls [allow()] and no subscriber calls
    [deny], [_onConnectionAttempt] returns having appended the new
    Connection, which wraps the socket, to [connectionList]; after the
    CONNECTION_REQUEST broadcast the trace grows by exactly one
    notification, CONNECT carrying that Connection, and by no [close] of
    the socket. *)
Theorem attempt_allowed_once (w : World) (s : SocketRef) (sk : Socket) :
  sockets w !! s = Some sk ->
  length (List.filter allows (requestListeners (server w))) = 1%nat ->
  denies (concat (requestListeners (server w))) = [] ->
  outcome (_onConnectionAttempt (Some s)) w = Return tt
  /\ conns (after (_onConnectionAttempt (Some s)) w) !! length (conns w)
     = Some (built_connection s (clock w))
  /\ connectionList (server (after (_onConnectionAttempt (Some s)) w))
     = connectionList (server w) ++ [length (conns w)]
  /\ trace (after (_onConnectionAttempt (Some s)) w)
     = trace w ++ [Fire CONNECTION_REQUEST RequestArgs;
                   Fire CONNECT (Conn (length (conns w)))].
Proof.
  intros Hs Ha Hd.
  assert (Ha' : existsb is_allow (concat (requestListeners (server w))) = true).
  { apply allows_concat. intros E. rewrite E in Ha. discriminate Ha. }
  unfold outcome, after.
  rewrite (onConnectionAttempt_arbitrated w s sk []) by assumption.
  cbv zeta. rewrite (arbitrated_isDenied_allowed w s sk Hd Ha').
  cbn. repeat split.
  - apply list_lookup_middle. reflexivity.
  - rewrite <- app_assoc. reflexivity.
Qed.

Lemma attempt_allowed_once_witness :
  connectionList (server (after (_onConnectionAttempt (Some 0%nat)) (w_listening true)))
  = [0%nat]
  /\ trace (after (_onConnectionAttempt (Some 0%nat)) (w_listening true))
     = [Fire CONNECTION_REQUEST RequestArgs; Fire CONNECT (Conn 0%nat)].
Proof.
  destruct (attempt_allowed_once (w_listening true) 0%nat (accepted_socket true)
              eq_refl eq_refl eq_refl) as (_ & _ & H1 & H2).
  split; [exact H1 | exact H2].
Defined.

Lemma onSocketClosed_unlisted w c o :
  conns w !! c = Some o -> sessionServer o = Some ThisServer -> ~ live w c ->
  _onSocketClosed c w =
  (Return tt,
   with_console (fun l => l ++
     ["SessionServer.removeConnection - Specified connection could not be found."])
     (with_conns (fun h => <[c := set_socket None o]> h) w)).
Proof.
  intros Ho Hsv Hl. pose proof (lookup_lt_Some _ _ _ Ho) as Hlt.
  unfold _onSocketClosed, updConn, bind, getConn, modify. rewrite Ho. cbn.
  rewrite list_lookup_insert_eq by exact Hlt. cbn. rewrite Hsv.
  rewrite removeConnection_absent by exact Hl. reflexivity.
Qed.

Lemma socket_close_own_listener w s sk c o code reason :
  sockets w !! s = Some sk -> closeListeners sk = [c] ->
  conns w !! c = Some o -> sessionServer o = Some ThisServer -> ~ live w c ->
  outcome (socket_close s code reason) w = Return tt
  /\ server (after (socket_close s code reason) w) = server w
  /\ trace (after (socket_close s code reason) w)
     = trace w ++ [SocketClose s code reason]
  /\ length (conns (after (socket_close s code reason) w)) = length (conns w).
Proof.
  intros Hs Hl Ho Hsv Hn. pose proof (lookup_lt_Some _ _ _ Hs) as Hlt.
  unfold outcome, after, socket_close, bind, effect, modify, getSocket. cbn.
  rewrite Hs. destruct (readyState sk); [|repeat split..].
  destruct (syncClose sk).
  - unfold updSocket, emit_close, bind, getSocket, modify. cbn. rewrite Hs. cbn.
    rewrite list_lookup_insert_eq by exact Hlt. cbn. rewrite Hl. cbn [forEach].
    unfold bind. erewrite onSocketClosed_unlisted; [| exact Ho | exact Hsv | exact Hn].
    cbn. rewrite length_insert. repeat split.
  - unfold updSocket, bind, getSocket, modify. cbn. rewrite Hs. cbn. repeat split.
Qed.

(** ** The invariants are kept *)

Lemma approved_lifecycle w c :
  approved w c <-> In (Fire CONNECT (Conn c)) (List.filter lifecycle (trace w)).
Proof. unfold approved. rewrite filter_In. cbn. tauto. Qed.

Lemma removed_lifecycle w c :
  removed w c <-> In (Fire DISCONNECT (Conn c)) (List.filter lifecycle (trace w)).
Proof. unfold removed. rewrite filter_In. cbn. tauto. Qed.

Lemma Registry_ext w w' :
  conns w' = conns w -> sockets w' = sockets w ->
  connectionList (server w') = connectionList (server w) ->
  (forall c, approved w' c <-> approved w c) ->
  (forall c, removed w' c <-> removed w c) ->
  Registry w -> Registry w'.
Proof.
  intros Hc Hs Hl Ha Hr [R1 R2 R3 R4 R5 R6].
  split; unfold live in *; rewrite ?Hc, ?Hs, ?Hl.
  - exact R1.
  - intros c. rewrite Ha, Hr. apply R2.
  - intros c H. apply R3, Ha, H.
  - intros c H. apply R4, Hr, H.
  - exact R5.
  - exact R6.
Qed.

Lemma ClosedBut_ext k w w' :
  conns w' = conns w ->
  connectionList (server w') = connectionList (server w) ->
  ClosedBut k w -> ClosedBut k w'.
Proof.
  intros Hc Hl H c o Hk Ho. unfold live. rewrite Hl. rewrite Hc in Ho.
  exact (H c o Hk Ho).
Qed.

Lemma same_core_refl w : same_core w w.
Proof. repeat split. Qed.

Lemma same_core_trans w1 w2 w3 :
  same_core w1 w2 -> same_core w2 w3 -> same_core w1 w3.
Proof.
  intros (A1 & A2 & A3 & A4) (B1 & B2 & B3 & B4).
  repeat split; congruence.
Qed.

Lemma same_core_approved w w' c : same_core w w' -> approved w' c <-> approved w c.
Proof. intros (_ & _ & _ & H). rewrite !approved_lifecycle, H. tauto. Qed.

Lemma same_core_removed w w' c : same_core w w' -> removed w' c <-> removed w c.
Proof. intros (_ & _ & _ & H). rewrite !removed_lifecycle, H. tauto. Qed.

Lemma same_core_live w w' c : same_core w w' -> live w' c <-> live w c.
Proof. intros (_ & _ & H & _). unfold live. rewrite H. tauto. Qed.

Lemma same_core_Registry w w' : same_core w w' -> Registry w -> Registry w'.
Proof.
  intros H. pose proof H as (H1 & H2 & H3 & _).
  apply Registry_ext; try assumption; intros c;
    [apply same_core_approved | apply same_core_removed]; exact H.
Qed.

Lemma same_core_ClosedBut k w w' : same_core w w' -> ClosedBut k w -> ClosedBut k w'.
Proof. intros (H1 & _ & H3 & _). apply ClosedBut_ext; assumption. Qed.

Lemma same_core_Inv w w' : same_core w w' -> Inv w -> Inv w'.
Proof.
  intros H [R C]. split;
    [exact (same_core_Registry _ _ H R) | exact (same_core_ClosedBut _ _ _ H C)].
Qed.

Lemma after_bind {A B} (m : JS A) (k : A -> JS B) (G : World -> Prop) w :
  (forall a w', m w = (Return a, w') -> G (after (k a) w')) ->
  (forall e w', m w = (Throw e, w') -> G w') ->
  G (after (bind m k) w).
Proof.
  intros H1 H2. unfold after, bind.
  destruct (m w) as [[a|e] w'] eqn:E.
  - exact (H1 a w' eq_refl).
  - exact (H2 e w' eq_refl).
Qed.

Lemma outcome_bind {A B} (m : JS A) (k : A -> JS B) w a w' :
  m w = (Return a, w') ->
  bind m k w = k a w'.
Proof. intros E. unfold bind. rewrite E. reflexivity. Qed.

Lemma quiet_bind {A B} (m : JS A) (k : A -> JS B) :
  quiet m -> (forall a, quiet (k a)) -> quiet (bind m k).
Proof.
  intros Hm Hk w. apply after_bind.
  - intros a w' E. apply same_core_trans with w'; [|apply Hk].
    specialize (Hm w). unfold after in Hm. rewrite E in Hm. exact Hm.
  - intros e w' E. specialize (Hm w). unfold after in Hm. rewrite E in Hm. exact Hm.
Qed.

Lemma quiet_forEach {A} (l : list A) (f : A -> JS unit) :
  (forall x, quiet (f x)) -> quiet (forEach l f).
Proof.
  intros Hf. induction l as [|x l IH]; [intros w; apply same_core_refl|].
  cbn [forEach]. apply quiet_bind; [apply Hf | intros _; exact IH].
Qed.

Lemma quiet_console_log line : quiet (console_log line).
Proof. intros w. repeat split. Qed.

Lemma quiet_effect e : lifecycle e = false -> quiet (effect e).
Proof.
  intros H w. repeat split. cbn. rewrite List.filter_app. cbn. rewrite H.
  apply app_nil_r.
Qed.

Lemma quiet_onArgs f : quiet (onArgs f).
Proof.
  intros w. unfold after, onArgs.
  destruct (f (connectionRequestArgs (server w))); repeat split.
Qed.

Lemma quiet_get : quiet get.
Proof. intros w. repeat split. Qed.

Lemma quiet_call c : quiet (call c).
Proof. destruct c; apply quiet_onArgs. Qed.

Lemma quiet_fire_CONNECTION_REQUEST : quiet fire_CONNECTION_REQUEST.
Proof.
  unfold fire_CONNECTION_REQUEST.
  apply quiet_bind; [apply quiet_effect; reflexivity|]. intros _.
  apply quiet_bind; [apply quiet_get|]. intros w.
  apply quiet_forEach. intros sub. apply quiet_forEach. apply quiet_call.
Qed.

(** *** Updates of the store *)

Lemma Registry_set_conn w c o o' :
  Registry w -> conns w !! c = Some o ->
  (forall s, socket o' = Some s -> socket o = Some s) ->
  Registry (with_conns (fun h => <[c := o']> h) w).
Proof.
  intros [R1 R2 R3 R4 R5 R6] Ho Hs.
  split; unfold live, approved, removed in *; cbn; rewrite ?length_insert;
    try assumption.
  intros c' o'' s Hl Hs'.
  destruct (Nat.eq_dec c c') as [<-|Hne].
  - rewrite list_lookup_insert_eq in Hl by (eapply lookup_lt_Some; exact Ho).
    injection Hl as <-. exact (R5 c o s Ho (Hs s Hs')).
  - rewrite list_lookup_insert_ne in Hl by exact Hne. exact (R5 c' o'' s Hl Hs').
Qed.

Lemma ClosedBut_skip w c o' :
  ClosedBut None w -> ClosedBut (Some c) (with_conns (fun h => <[c := o']> h) w).
Proof.
  intros H c' o Hk Ho. cbn in Ho.
  rewrite list_lookup_insert_ne in Ho by congruence.
  apply (H c' o); [discriminate | exact Ho].
Qed.

Lemma ClosedBut_set_conn k w c o' :
  ClosedBut k w ->
  (socket o' = None -> sessionServer o' = Some ThisServer -> ~ live w c) ->
  ClosedBut k (with_conns (fun h => <[c := o']> h) w).
Proof.
  intros H Hc c' o Hk Ho Hs Hsv. cbn in Ho. unfold live. cbn.
  destruct (Nat.eq_dec c c') as [<-|Hne].
  - destruct (Nat.lt_ge_cases c (length (conns w))) as [Hlt|Hge].
    + rewrite list_lookup_insert_eq in Ho by exact Hlt. injection Ho as <-.
      exact (Hc Hs Hsv).
    + rewrite list_insert_ge in Ho by exact Hge. exact (H c o Hk Ho Hs Hsv).
  - rewrite list_lookup_insert_ne in Ho by exact Hne. exact (H c' o Hk Ho Hs Hsv).
Qed.

Lemma Registry_removed w c l1 l2 :
  Registry w -> connectionList (server w) = l1 ++ c :: l2 ->
  Registry (with_trace (fun t => t ++ [Fire DISCONNECT (Conn c)])
              (with_server (set_connectionList (l1 ++ l2)) w)).
Proof.
  intros [R1 R2 R3 R4 R5 R6] E.
  unfold live, approved, removed in *. rewrite E in R1, R2.
  pose proof (List.NoDup_remove_1 _ _ _ R1) as N1.
  pose proof (List.NoDup_remove_2 _ _ _ R1) as N2.
  split; unfold live, approved, removed; cbn; try assumption.
  - intros x. specialize (R2 x). rewrite !in_app_iff in *. cbn in *.
    split.
    + intros Hx. assert (x <> c) by (intros ->; exact (N2 Hx)).
      split; [left; tauto|]. intros [?|[?|[]]]; [tauto|congruence].
    + intros [[Ha|[Ha|[]]] Hr]; [|discriminate Ha].
      assert (x <> c) by (intros ->; apply Hr; right; left; reflexivity).
      assert (Hin : In x l1 \/ c = x \/ In x l2) by (apply R2; tauto).
      destruct Hin as [?|[?|?]]; [tauto|congruence|tauto].
  - intros x. rewrite in_app_iff. cbn. intros [Ha|[Ha|[]]]; [auto|discriminate Ha].
  - intros x. rewrite in_app_iff. cbn. intros [Hr|[Hr|[]]]; [auto|].
    injection Hr as <-. apply R3, R2. rewrite in_app_iff. cbn. tauto.
Qed.

Lemma ClosedBut_removed k w c l1 l2 :
  Registry w -> connectionList (server w) = l1 ++ c :: l2 ->
  (k = None \/ k = Some c) -> ClosedBut k w ->
  ClosedBut None (with_trace (fun t => t ++ [Fire DISCONNECT (Conn c)])
                    (with_server (set_connectionList (l1 ++ l2)) w)).
Proof.
  intros [R1 _ _ _ _ _] E Hk H x o _ Ho Hs Hsv Hin.
  rewrite E in R1. pose proof (List.NoDup_remove_2 _ _ _ R1) as N2.
  change (In x (l1 ++ l2)) in Hin.
  destruct (Nat.eq_dec x c) as [->|Hne]; [exact (N2 Hin)|].
  apply (H x o); try assumption.
  - destruct Hk as [->| ->]; congruence.
  - unfold live. rewrite E. rewrite in_app_iff in *. cbn. tauto.
Qed.

Lemma Registry_pushed w c :
  Registry w -> (c < length (conns w))%nat -> ~ approved w c -> ~ removed w c ->
  Registry (with_trace (fun t => t ++ [Fire CONNECT (Conn c)])
              (with_server (fun s => set_connectionList (connectionList s ++ [c]) s) w)).
Proof.
  intros [R1 R2 R3 R4 R5 R6] Hc Ha Hr.
  assert (Hn : ~ In c (connectionList (server w))).
  { intros Hin. apply Ha. apply R2. exact Hin. }
  unfold live, approved, removed in *.
  split; unfold live, approved, removed; cbn; try assumption.
  - apply List.NoDup_app; [exact R1 | constructor; [intros []|constructor] |].
    intros x Hx [<-|[]]. exact (Hn Hx).
  - intros x. specialize (R2 x). rewrite !in_app_iff. cbn. split.
    + intros [Hx|[<-|[]]].
      * split; [left; tauto|]. intros [?|[?|[]]]; [tauto|discriminate].
      * split; [right; left; reflexivity|]. intros [?|[?|[]]]; [tauto|discriminate].
    + intros [[Hx|[Hx|[]]] Hnr].
      * left. apply R2. split; [exact Hx|]. intros ?. apply Hnr. tauto.
      * injection Hx as <-. right. left. reflexivity.
  - intros x. rewrite in_app_iff. cbn. intros [Hx|[Hx|[]]]; [auto|].
    injection Hx as <-. exact Hc.
  - intros x. rewrite in_app_iff. cbn. intros [Hx|[Hx|[]]]; [auto|discriminate Hx].
Qed.

Lemma ClosedBut_pushed w c o :
  ClosedBut None w -> conns w !! c = Some o -> socket o <> None ->
  ClosedBut None
    (with_trace (fun t => t ++ [Fire CONNECT (Conn c)])
       (with_server (fun s => set_connectionList (connectionList s ++ [c]) s) w)).
Proof.
  intros H Ho Hs x o' _ Hx Hsx Hsv. unfold live. cbn in *.
  rewrite in_app_iff. cbn. intros [Hin|[<-|[]]].
  - exact (H x o' ltac:(discriminate) Hx Hsx Hsv Hin).
  - rewrite Ho in Hx. injection Hx as <-. exact (Hs Hsx).
Qed.

Lemma Registry_built w s sk t :
  Registry w -> sockets w !! s = Some sk ->
  Registry {| conns := conns w ++ [built_connection s t];
              sockets := <[s := add_dataListener (length (conns w))
                                  (add_closeListener (length (conns w)) sk)]> (sockets w);
              server := server w; clock := clock w; trace := trace w;
              console := console w |}.
Proof.
  intros [R1 R2 R3 R4 R5 R6] Hs. pose proof (lookup_lt_Some _ _ _ Hs) as Hlt.
  split; unfold live, approved, removed in *; cbn;
    rewrite ?length_app, ?length_insert; cbn; try assumption.
  - intros c H. specialize (R3 c H). lia.
  - intros c H. specialize (R4 c H). lia.
  - intros c o s' Ho Hs'.
    destruct (Nat.lt_ge_cases c (length (conns w))) as [Hc|Hc].
    + rewrite lookup_app_l in Ho by exact Hc. exact (R5 c o s' Ho Hs').
    + rewrite lookup_app_r in Ho by exact Hc.
      destruct (c - length (conns w))%nat; [|destruct n; discriminate Ho].
      injection Ho as <-. cbn in Hs'. injection Hs' as <-. exact Hlt.
  - intros s' sk' c Hl Hin.
    destruct (Nat.eq_dec s s') as [<-|Hne].
    + rewrite list_lookup_insert_eq in Hl by exact Hlt. injection Hl as <-.
      cbn in Hin. apply in_app_iff in Hin. destruct Hin as [Hin|[<-|[]]]; [|lia].
      specialize (R6 s sk c Hs Hin). lia.
    + rewrite list_lookup_insert_ne in Hl by exact Hne.
      specialize (R6 s' sk' c Hl Hin). lia.
Qed.

Lemma ClosedBut_built w s s' sk' t :
  ClosedBut None w ->
  ClosedBut None {| conns := conns w ++ [built_connection s t];
                    sockets := <[s' := sk']> (sockets w);
                    server := server w; clock := clock w; trace := trace w;
                    console := console w |}.
Proof.
  intros H c o _ Ho Hs Hsv. unfold live. cbn in *.
  destruct (Nat.lt_ge_cases c (length (conns w))) as [Hc|Hc].
  - rewrite lookup_app_l in Ho by exact Hc.
    exact (H c o ltac:(discriminate) Ho Hs Hsv).
  - rewrite lookup_app_r in Ho by exact Hc.
    destruct (c - length (conns w))%nat; [|destruct n; discriminate Ho].
    injection Ho as <-. discriminate Hs.
Qed.

Lemma Registry_set_readyState w s sk r :
  Registry w -> sockets w !! s = Some sk ->
  Registry (with_sockets (fun h => <[s := set_readyState r sk]> h) w).
Proof.
  intros [R1 R2 R3 R4 R5 R6] Hs. pose proof (lookup_lt_Some _ _ _ Hs) as Hlt.
  split; unfold live, approved, removed in *; cbn; rewrite ?length_insert;
    try assumption.
  intros s' sk' c Hl Hin.
  destruct (Nat.eq_dec s s') as [<-|Hne].
  - rewrite list_lookup_insert_eq in Hl by exact Hlt. injection Hl as <-.
    exact (R6 s sk c Hs Hin).
  - rewrite list_lookup_insert_ne in Hl by exact Hne. exact (R6 s' sk' c Hl Hin).
Qed.

Lemma Inv_set_readyState w s sk r :
  Inv w -> sockets w !! s = Some sk ->
  Inv (with_sockets (fun h => <[s := set_readyState r sk]> h) w).
Proof.
  intros [R C] Hs. split; [exact (Registry_set_readyState w s sk r R Hs)|].
  revert C. apply ClosedBut_ext; reflexivity.
Qed.

Lemma Inv_new_socket w sk :
  closeListeners sk = [] -> Inv w -> Inv (with_sockets (fun h => h ++ [sk]) w).
Proof.
  intros Hsk [[R1 R2 R3 R4 R5 R6] C]. split.
  - split; unfold live, approved, removed in *; cbn; rewrite ?length_app;
      try assumption.
    + intros c o s Ho Hs. specialize (R5 c o s Ho Hs). lia.
    + intros s sk' c Hl Hin. apply lookup_app_Some in Hl.
      destruct Hl as [Hl|[_ Hl]]; [exact (R6 s sk' c Hl Hin)|].
      destruct (s - length (sockets w))%nat; [|destruct n; discriminate Hl].
      injection Hl as <-. rewrite Hsk in Hin. destruct Hin.
  - revert C. apply ClosedBut_ext; reflexivity.
Qed.

(** *** The methods *)

Lemma removeConnection_Inv w conn : Inv w -> Inv (after (removeConnection conn) w).
Proof.
  intros [R C]. destruct conn as [c|]; [|split; assumption].
  destruct (in_dec Nat.eq_dec c (connectionList (server w))) as [Hin|Hn].
  - destruct (In_split_first c _ Hin) as (l1 & l2 & E & Hn1).
    unfold after. rewrite (removeConnection_present w c l1 l2 E Hn1). cbn [snd].
    split; [exact (Registry_removed w c l1 l2 R E)|].
    exact (ClosedBut_removed None w c l1 l2 R E (or_introl eq_refl) C).
  - unfold after. rewrite (removeConnection_absent w c Hn). cbn [snd].
    apply (same_core_Inv w); [repeat split | split; assumption].
Qed.

Lemma onSocketClosed_Inv w c o :
  Inv w -> conns w !! c = Some o ->
  outcome (_onSocketClosed c) w = Return tt
  /\ Inv (after (_onSocketClosed c) w)
  /\ conns (after (_onSocketClosed c) w) = <[c := set_socket None o]> (conns w)
  /\ sockets (after (_onSocketClosed c) w) = sockets w
  /\ (forall x, live (after (_onSocketClosed c) w) x -> live w x)
  /\ (sessionServer o = Some ThisServer -> ~ live (after (_onSocketClosed c) w) c).
Proof.
  intros [R C] Ho. pose proof (lookup_lt_Some _ _ _ Ho) as Hlt.
  assert (R' : Registry (with_conns (fun h => <[c := set_socket None o]> h) w)).
  { apply (Registry_set_conn w c o); [exact R | exact Ho | discriminate]. }
  unfold outcome, after, _onSocketClosed, updConn, bind, getConn, modify.
  rewrite Ho. cbn. rewrite list_lookup_insert_eq by exact Hlt. cbn.
  destruct (sessionServer o) as [[]|] eqn:Hsv.
  - destruct (in_dec Nat.eq_dec c (connectionList (server w))) as [Hin|Hn].
    + destruct (In_split_first c _ Hin) as (l1 & l2 & E & Hn1).
      erewrite removeConnection_present; [| exact E | exact Hn1]. cbn.
      split; [reflexivity|]. split; [split|].
      * exact (Registry_removed _ c l1 l2 R' E).
      * exact (ClosedBut_removed (Some c) _ c l1 l2 R' E (or_intror eq_refl)
                 (ClosedBut_skip w c _ C)).
      * split; [reflexivity|]. split; [reflexivity|]. split.
        -- intros x Hx. unfold live in *. cbn in Hx. rewrite E.
           rewrite in_app_iff in *. cbn. tauto.
        -- intros _ Hx. unfold live in Hx. cbn in Hx.
           destruct R as [R1 _ _ _ _ _]. rewrite E in R1.
           exact (List.NoDup_remove_2 _ _ _ R1 Hx).
    + erewrite removeConnection_absent by exact Hn. cbn.
      split; [reflexivity|]. split; [split|].
      * revert R'. apply Registry_ext; try reflexivity; intros x; reflexivity.
      * apply (ClosedBut_ext None (with_conns (fun h => <[c := set_socket None o]> h) w));
          [reflexivity | reflexivity |].
        apply ClosedBut_set_conn; [exact C | intros _ _; exact Hn].
      * repeat split; [intros x Hx; exact Hx | intros _; exact Hn].
  - split; [reflexivity|]. split; [split|].
    + exact R'.
    + apply ClosedBut_set_conn; [exact C | intros _ H; cbn in H; congruence].
    + repeat split; [intros x Hx; exact Hx | intros H; discriminate H].
Qed.

Lemma run_eq {A} (m : JS A) w : m w = (outcome m w, after m w).
Proof. unfold outcome, after. destruct (m w); reflexivity. Qed.

Lemma same_servers_refl w : same_servers w w.
Proof. split; [reflexivity|]. intros x o o' H1 H2. congruence. Qed.

Lemma same_servers_conns w w' : conns w' = conns w -> same_servers w w'.
Proof. intros E. split; [congruence|]. intros x o o' H1 H2. congruence. Qed.

Lemma same_servers_trans w1 w2 w3 :
  same_servers w1 w2 -> same_servers w2 w3 -> same_servers w1 w3.
Proof.
  intros [L1 H1] [L2 H2]. split; [congruence|].
  intros x o o'' Ho Ho''.
  destruct (lookup_lt_is_Some_2 (conns w2) x) as [o' Ho'].
  { rewrite L1. eapply lookup_lt_Some. exact Ho. }
  rewrite (H2 x o' o'' Ho' Ho''). exact (H1 x o o' Ho Ho').
Qed.

Lemma same_servers_set_socket w w' c o v :
  conns w !! c = Some o -> conns w' = <[c := set_socket v o]> (conns w) ->
  same_servers w w'.
Proof.
  intros Ho E. split; [rewrite E; apply length_insert|].
  intros x o1 o2 H1 H2. rewrite E in H2.
  destruct (Nat.eq_dec c x) as [<-|Hne].
  - rewrite list_lookup_insert_eq in H2 by (eapply lookup_lt_Some; exact Ho).
    injection H2 as <-. cbn. congruence.
  - rewrite list_lookup_insert_ne in H2 by exact Hne. congruence.
Qed.

Lemma forEach_onSocketClosed ls : forall w,
  Inv w -> (forall c, In c ls -> (c < length (conns w))%nat) ->
  outcome (forEach ls _onSocketClosed) w = Return tt
  /\ Inv (after (forEach ls _onSocketClosed) w)
  /\ same_servers w (after (forEach ls _onSocketClosed) w)
  /\ sockets (after (forEach ls _onSocketClosed) w) = sockets w
  /\ (forall x, live (after (forEach ls _onSocketClosed) w) x -> live w x)
  /\ (forall c o, In c ls -> conns w !! c = Some o ->
        sessionServer o = Some ThisServer ->
        ~ live (after (forEach ls _onSocketClosed) w) c).
Proof.
  induction ls as [|c ls IH]; intros w HI Hls.
  - split; [reflexivity|]. split; [exact HI|]. split; [apply same_servers_refl|].
    split; [reflexivity|]. split; [intros x Hx; exact Hx | intros c o []].
  - destruct (lookup_lt_is_Some_2 (conns w) c) as [o Ho].
    { apply Hls. left. reflexivity. }
    destruct (onSocketClosed_Inv w c o HI Ho) as (E1 & I1 & C1 & S1 & L1 & N1).
    pose proof (same_servers_set_socket w _ c o None Ho C1) as SS1.
    set (w1 := after (_onSocketClosed c) w) in *.
    destruct (IH w1 I1) as (E2 & I2 & SS2 & S2 & L2 & N2).
    { intros x Hx. rewrite (proj1 SS1). apply Hls. right. exact Hx. }
    assert (Erun : forEach (c :: ls) _onSocketClosed w = forEach ls _onSocketClosed w1).
    { cbn [forEach].
      apply (outcome_bind (_onSocketClosed c) (fun _ => forEach ls _onSocketClosed)
               w tt w1).
      rewrite (run_eq (_onSocketClosed c) w), E1. reflexivity. }
    unfold outcome, after in *. rewrite Erun.
    split; [exact E2|]. split; [exact I2|].
    split; [exact (same_servers_trans _ _ _ SS1 SS2)|].
    split; [congruence|]. split; [intros x Hx; exact (L1 x (L2 x Hx))|].
    intros x ox [<-|Hin] Hox Hsv.
    + intros Hl. apply L2 in Hl. assert (ox = o) by congruence. subst ox.
      exact (N1 Hsv Hl).
    + destruct (lookup_lt_is_Some_2 (conns w1) x) as [o1 Ho1].
      { rewrite (proj1 SS1). eapply lookup_lt_Some. exact Hox. }
      apply (N2 x o1 Hin Ho1). rewrite (proj2 SS1 x ox o1 Hox Ho1). exact Hsv.
Qed.

Lemma updConn_run w c o f :
  conns w !! c = Some o ->
  updConn c f w = (Return tt, with_conns (fun h => <[c := f o]> h) w).
Proof. intros H. unfold updConn, bind, getConn. rewrite H. reflexivity. Qed.

Lemma emit_close_Inv w s sk :
  Inv w -> sockets w !! s = Some sk ->
  outcome (emit_close s) w = Return tt
  /\ Inv (after (emit_close s) w)
  /\ same_servers w (after (emit_close s) w)
  /\ sockets (after (emit_close s) w) = sockets w
  /\ (forall x, live (after (emit_close s) w) x -> live w x)
  /\ (forall c o, In c (closeListeners sk) -> conns w !! c = Some o ->
        sessionServer o = Some ThisServer -> ~ live (after (emit_close s) w) c).
Proof.
  intros HI Hs.
  assert (E : emit_close s w = forEach (closeListeners sk) _onSocketClosed w).
  { unfold emit_close, bind, getSocket. rewrite Hs. reflexivity. }
  unfold outcome, after. rewrite E.
  apply (forEach_onSocketClosed (closeListeners sk) w HI).
  intros c Hc. exact (reg_listener w (proj1 HI) s sk c Hs Hc).
Qed.

Lemma Inv_effect w e : lifecycle e = false -> Inv w -> Inv (after (effect e) w).
Proof. intros He. apply same_core_Inv. apply quiet_effect. exact He. Qed.

Lemma socket_close_Inv w s sk code reason :
  Inv w -> sockets w !! s = Some sk ->
  outcome (socket_close s code reason) w = Return tt
  /\ Inv (after (socket_close s code reason) w)
  /\ same_servers w (after (socket_close s code reason) w)
  /\ length (sockets (after (socket_close s code reason) w)) = length (sockets w)
  /\ (forall x, live (after (socket_close s code reason) w) x -> live w x).
Proof.
  intros HI Hs. pose proof (lookup_lt_Some _ _ _ Hs) as Hlt.
  pose proof (Inv_effect w (SocketClose s code reason) eq_refl HI) as I0.
  set (w0 := after (effect (SocketClose s code reason)) w) in *.
  assert (Hs0 : sockets w0 !! s = Some sk) by exact Hs.
  assert (E : socket_close s code reason w =
              match readyState sk with
              | OPEN =>
                  if syncClose sk then
                    emit_close s (with_sockets (fun h => <[s := set_readyState CLOSED sk]> h) w0)
                  else
                    (Return tt,
                     with_sockets (fun h => <[s := set_readyState CLOSING sk]> h) w0)
              | _ => (Return tt, w0)
              end).
  { unfold socket_close, bind, effect, modify, getSocket. cbn. rewrite Hs.
    destruct (readyState sk); [|reflexivity..].
    destruct (syncClose sk); unfold updSocket, bind, getSocket, modify; cbn;
      rewrite Hs; reflexivity. }
  unfold outcome, after. rewrite E.
  destruct (readyState sk).
  - destruct (syncClose sk).
    + pose proof (Inv_set_readyState w0 s sk CLOSED I0 Hs0) as I1.
      destruct (emit_close_Inv _ s (set_readyState CLOSED sk) I1)
        as (E1 & I2 & SS & S2 & L2 & _).
      { cbn. apply list_lookup_insert_eq. exact Hlt. }
      split; [exact E1|]. split; [exact I2|]. split; [exact SS|].
      split; [|exact L2].
      etransitivity; [exact (f_equal length S2)|]. cbn. apply length_insert.
    + cbn [fst snd]. split; [reflexivity|].
      split; [exact (Inv_set_readyState w0 s sk CLOSING I0 Hs0)|].
      split; [apply same_servers_conns; reflexivity|].
      split; [cbn; apply length_insert | intros x Hx; exact Hx].
  - cbn [fst snd]. split; [reflexivity|]. split; [exact I0|].
    split; [apply same_servers_conns; reflexivity|].
    split; [reflexivity | intros x Hx; exact Hx].
  - cbn [fst snd]. split; [reflexivity|]. split; [exact I0|].
    split; [apply same_servers_conns; reflexivity|].
    split; [reflexivity | intros x Hx; exact Hx].
Qed.

Lemma transport_close_Inv w s : Inv w -> Inv (after (transport_close s) w).
Proof.
  intros HI. unfold after, transport_close, bind, getSocket.
  destruct (sockets w !! s) as [sk|] eqn:Hs; [|exact HI].
  pose proof (lookup_lt_Some _ _ _ Hs) as Hlt.
  assert (G : Inv (snd ((updSocket s (set_readyState CLOSED) ;; emit_close s) w))).
  { unfold updSocket, bind, getSocket, modify. rewrite Hs. cbn.
    pose proof (Inv_set_readyState w s sk CLOSED HI Hs) as I1.
    destruct (emit_close_Inv _ s (set_readyState CLOSED sk) I1) as (_ & I2 & _).
    { cbn. apply list_lookup_insert_eq. exact Hlt. }
    exact I2. }
  destruct (readyState sk); [exact G | exact G | exact HI].
Qed.

Lemma disconnect_run w c o s e :
  Inv w -> conns w !! c = Some o -> socket o = Some s ->
  exists o1,
    conns (after (socket_close s (id e) (msg e)) w) !! c = Some o1
    /\ disconnect c (Some e) w =
       (Return tt,
        with_conns (fun h => <[c := set_socket None (set_sessionServer None o1)]> h)
          (after (socket_close s (id e) (msg e)) w)).
Proof.
  intros HI Ho Hs.
  destruct (lookup_lt_is_Some_2 (sockets w) s) as [sk Hsk].
  { exact (reg_socket w (proj1 HI) c o s Ho Hs). }
  destruct (socket_close_Inv w s sk (id e) (msg e) HI Hsk) as (E1 & _ & SS & _).
  set (w1 := after (socket_close s (id e) (msg e)) w) in *.
  destruct (lookup_lt_is_Some_2 (conns w1) c) as [o1 Ho1].
  { rewrite (proj1 SS). eapply lookup_lt_Some. exact Ho. }
  exists o1. split; [exact Ho1|].
  unfold disconnect, bind at 1, getConn at 1. rewrite Ho, Hs.
  unfold bind at 1. rewrite (run_eq (socket_close s (id e) (msg e)) w), E1.
  change (after (socket_close s (id e) (msg e)) w) with w1.
  unfold bind. rewrite (updConn_run w1 c o1 _ Ho1).
  erewrite updConn_run
    by (cbn; apply list_lookup_insert_eq; eapply lookup_lt_Some; exact Ho1).
  cbn. rewrite list_insert_insert_eq. reflexivity.
Qed.

Lemma disconnect_Inv w c err : Inv w -> Inv (after (disconnect c err) w).
Proof.
  intros HI.
  destruct (conns w !! c) as [o|] eqn:Ho.
  2:{ unfold after, disconnect, bind, getConn. rewrite Ho. exact HI. }
  destruct (socket o) as [s|] eqn:Hs.
  2:{ unfold after, disconnect, bind, getConn. rewrite Ho, Hs. exact HI. }
  destruct err as [e|].
  2:{ unfold after, disconnect, bind, getConn. rewrite Ho, Hs. exact HI. }
  destruct (disconnect_run w c o s e HI Ho Hs) as (o1 & Ho1 & E).
  unfold after at 1. rewrite E. cbn [snd].
  destruct (lookup_lt_is_Some_2 (sockets w) s) as [sk Hsk].
  { exact (reg_socket w (proj1 HI) c o s Ho Hs). }
  destruct (socket_close_Inv w s sk (id e) (msg e) HI Hsk) as (_ & [R1 C1] & _).
  split.
  - apply (Registry_set_conn _ c o1); [exact R1 | exact Ho1 | discriminate].
  - apply ClosedBut_set_conn; [exact C1 | intros _ H; discriminate H].
Qed.

Lemma after_quiet_bind {A B} (m : JS A) (k : A -> JS B) (G : World -> Prop) w0 w :
  quiet m -> same_core w0 w ->
  (forall a w', same_core w0 w' -> G (after (k a) w')) ->
  (forall w', same_core w0 w' -> G w') ->
  G (after (bind m k) w).
Proof.
  intros Hm H0 H1 H2. apply after_bind.
  - intros a w' E. apply H1. apply same_core_trans with w; [exact H0|].
    specialize (Hm w). unfold after in Hm. rewrite E in Hm. exact Hm.
  - intros e w' E. apply H2. apply same_core_trans with w; [exact H0|].
    specialize (Hm w). unfold after in Hm. rewrite E in Hm. exact Hm.
Qed.

Lemma verdict_Inv w c s :
  Inv w -> (s < length (sockets w))%nat ->
  (c < length (conns w))%nat -> ~ approved w c -> ~ removed w c ->
  (exists o, conns w !! c = Some o /\ socket o <> None) ->
  Inv (after
         (let args := connectionRequestArgs (server w) in
          if isDenied args then
            console_log ("connection attempt denied: " ++ msg (error args))%string ;;
            socket_close s (id (error args)) (msg (error args))
          else
            console_log "connection attempt approved" ;;
            modify (with_server (fun sv =>
                      set_connectionList (connectionList sv ++ [c]) sv)) ;;
            fire CONNECT (Conn c)) w).
Proof.
  intros HI Hs Hc Ha Hr (o & Ho & Hso). cbv zeta.
  destruct (isDenied (connectionRequestArgs (server w))).
  - apply (after_quiet_bind _ _ Inv w w (quiet_console_log _) (same_core_refl w)).
    + intros _ w' Hw'. pose proof (same_core_Inv w w' Hw' HI) as HI'.
      destruct (lookup_lt_is_Some_2 (sockets w') s) as [sk Hsk].
      { destruct Hw' as (_ & -> & _). exact Hs. }
      exact (proj1 (proj2 (socket_close_Inv w' s sk _ _ HI' Hsk))).
    + intros w' Hw'. exact (same_core_Inv w w' Hw' HI).
  - set (w' := with_console (fun l => l ++ ["connection attempt approved"]) w).
    assert (HI' : Inv w') by (apply (same_core_Inv w); [repeat split | exact HI]).
    change (Inv (with_trace (fun t => t ++ [Fire CONNECT (Conn c)])
                   (with_server (fun sv =>
                      set_connectionList (connectionList sv ++ [c]) sv) w'))).
    split.
    + apply Registry_pushed; [exact (proj1 HI') | exact Hc | exact Ha | exact Hr].
    + apply (ClosedBut_pushed w' c o); [exact (proj2 HI') | exact Ho | exact Hso].
Qed.

Lemma onConnectionAttempt_Inv w sock :
  Inv w -> (forall s, sock = Some s -> (s < length (sockets w))%nat) ->
  Inv (after (_onConnectionAttempt sock) w).
Proof.
  intros HI Hsock. destruct sock as [s|].
  2:{ apply (same_core_Inv w); [repeat split | exact HI]. }
  destruct (lookup_lt_is_Some_2 (sockets w) s) as [sk Hsk]; [apply Hsock; reflexivity|].
  set (w0 := with_console (fun l => l ++ ["detected connection attempt"]) w).
  assert (HI0 : Inv w0) by (apply (same_core_Inv w); [repeat split | exact HI]).
  set (c := length (conns w)) in *.
  set (w1 := {| conns := conns w0 ++ [built_connection s (clock w0)];
                sockets := <[s := add_dataListener (length (conns w0))
                                    (add_closeListener (length (conns w0)) sk)]>
                             (sockets w0);
                server := server w0; clock := clock w0; trace := trace w0;
                console := console w0 |}) in *.
  assert (HI1 : Inv w1).
  { split; [exact (Registry_built w0 s sk _ (proj1 HI0) Hsk)|].
    exact (ClosedBut_built w0 s s _ _ (proj2 HI0)). }
  assert (Hc1 : (c < length (conns w1))%nat).
  { cbn. rewrite length_app. cbn. unfold c. lia. }
  assert (Ha1 : ~ approved w1 c).
  { intros H. pose proof (reg_approved w (proj1 HI) c H). unfold c in *. lia. }
  assert (Hr1 : ~ removed w1 c).
  { intros H. pose proof (reg_removed w (proj1 HI) c H). unfold c in *. lia. }
  assert (Ho1 : conns w1 !! c = Some (built_connection s (clock w0))).
  { cbn. apply list_lookup_middle. reflexivity. }
  assert (Hs1 : (s < length (sockets w1))%nat).
  { cbn. rewrite length_insert. eapply lookup_lt_Some. exact Hsk. }
  assert (E : _onConnectionAttempt (Some s) w =
    (onArgs (initialize (Some c)) ;;
     fire_CONNECTION_REQUEST ;;
     onArgs (fun a => Return (clear_connection a)) ;;
     w' <- get ;;
     let args := connectionRequestArgs (server w') in
     if isDenied args then
       console_log ("connection attempt denied: " ++ msg (error args))%string ;;
       socket_close s (id (error args)) (msg (error args))
     else
       console_log "connection attempt approved" ;;
       modify (with_server (fun sv =>
                 set_connectionList (connectionList sv ++ [c]) sv)) ;;
       fire CONNECT (Conn c)) w1).
  { unfold _onConnectionAttempt. unfold bind at 1. cbn [console_log modify].
    unfold bind at 1. rewrite (new_Connection_ok _ s sk) by exact Hsk.
    reflexivity. }
  unfold after at 1. rewrite E.
  assert (Hpost : forall w', same_core w1 w' ->
            Inv w' /\ (s < length (sockets w'))%nat /\ (c < length (conns w'))%nat
            /\ ~ approved w' c /\ ~ removed w' c
            /\ exists o, conns w' !! c = Some o /\ socket o <> None).
  { intros w' Hw'. split; [exact (same_core_Inv w1 w' Hw' HI1)|].
    pose proof Hw' as (Hcs & Hss & _).
    split; [rewrite Hss; exact Hs1|]. split; [rewrite Hcs; exact Hc1|].
    split; [rewrite (same_core_approved w1 w' c Hw'); exact Ha1|].
    split; [rewrite (same_core_removed w1 w' c Hw'); exact Hr1|].
    exists (built_connection s (clock w0)). rewrite Hcs. split; [exact Ho1|discriminate]. }
  apply (after_quiet_bind _ _ Inv w1 w1 (quiet_onArgs _) (same_core_refl w1));
    [|intros w' Hw'; exact (proj1 (Hpost w' Hw'))].
  intros _ w2 H2.
  apply (after_quiet_bind _ _ Inv w1 w2 quiet_fire_CONNECTION_REQUEST H2);
    [|intros w' Hw'; exact (proj1 (Hpost w' Hw'))].
  intros _ w3 H3.
  apply (after_quiet_bind _ _ Inv w1 w3 (quiet_onArgs _) H3);
    [|intros w' Hw'; exact (proj1 (Hpost w' Hw'))].
  intros _ w4 H4.
  apply after_bind; [|intros e w' Ew'; discriminate Ew'].
  intros a w' Ew'. injection Ew' as <- <-.
  destruct (Hpost w4 H4) as (P1 & P2 & P3 & P4 & P5 & P6).
  exact (verdict_Inv w4 c s P1 P2 P3 P4 P5 P6).
Qed.

(** *** Every reachable world *)

Lemma Inv_initial t : Inv (initial t).
Proof.
  split; [split|]; unfold live, approved, removed; cbn.
  - constructor.
  - intros c. tauto.
  - intros c [].
  - intros c [].
  - intros c o s H. rewrite lookup_nil in H. discriminate H.
  - intros s sk c H. rewrite lookup_nil in H. discriminate H.
  - intros c o _ H. cbn in H. rewrite lookup_nil in H. discriminate H.
Qed.

Lemma step_Inv w st : Inv w -> admissible w st = true -> Inv (after (step st) w).
Proof.
  intros HI Had. destruct st as [sync|sock|conn|c err|s|subs|dt]; cbn [step].
  - exact (Inv_new_socket w (accepted_socket sync) eq_refl HI).
  - apply onConnectionAttempt_Inv; [exact HI|].
    intros s ->. cbn in Had. apply Nat.ltb_lt. exact Had.
  - exact (removeConnection_Inv w conn HI).
  - exact (disconnect_Inv w c err HI).
  - exact (transport_close_Inv w s HI).
  - apply (same_core_Inv w); [repeat split | exact HI].
  - apply (same_core_Inv w); [repeat split | exact HI].
Qed.

Lemma exec_Inv w st : Inv w -> Inv (exec w st).
Proof.
  intros HI. unfold exec. destruct (admissible w st) eqn:E; [|exact HI].
  exact (step_Inv w st HI E).
Qed.

Lemma run_Inv steps : forall w, Inv w -> Inv (run steps w).
Proof.
  induction steps as [|st steps IH]; intros w HI; [exact HI|].
  apply IH. exact (exec_Inv w st HI).
Qed.

Lemma reachable_Inv w : reachable w -> Inv w.
Proof. intros (t & steps & <-). apply run_Inv. apply Inv_initial. Qed.

Lemma reachable_run steps w : reachable w -> reachable (run steps w).
Proof.
  intros (t & steps0 & <-). exists t, (steps0 ++ steps).
  unfold run. apply fold_left_app.
Qed.

Lemma reachable_unlisted w : reachable w -> ~ live w (length (conns w)).
Proof.
  intros Hr Hl. destruct (reachable_Inv w Hr) as [R _].
  pose proof (reg_approved w R _ (proj1 (proj1 (reg_live w R _) Hl))). lia.
Qed.

(** ** Admission: the denied attempt *)

Lemma attempt_denied w s sk errs :
  ~ live w (length (conns w)) ->
  sockets w !! s = Some sk -> closeListeners sk = [] ->
  denies (concat (requestListeners (server w))) = map Some errs ->
  isDenied (connectionRequestArgs (server (arbitrated w s sk))) = true ->
  outcome (_onConnectionAttempt (Some s)) w = Return tt
  /\ server (after (_onConnectionAttempt (Some s)) w) = server (arbitrated w s sk)
  /\ trace (after (_onConnectionAttempt (Some s)) w)
     = trace w ++ [Fire CONNECTION_REQUEST RequestArgs;
                   SocketClose s
                     (id (error (connectionRequestArgs (server (arbitrated w s sk)))))
                     (msg (error (connectionRequestArgs (server (arbitrated w s sk)))))]
  /\ length (conns (after (_onConnectionAttempt (Some s)) w)) = S (length (conns w)).
Proof.
  intros Hn Hs Hl Hd Hden. pose proof (lookup_lt_Some _ _ _ Hs) as Hlt.
  unfold outcome, after.
  rewrite (onConnectionAttempt_arbitrated w s sk errs Hs Hd). cbv zeta.
  rewrite Hden.
  set (args := connectionRequestArgs (server (arbitrated w s sk))).
  set (w1 := with_console
               (fun l => l ++ [("connection attempt denied: " ++ msg (error args))%string])
               (arbitrated w s sk)).
  change ((console_log ("connection attempt denied: " ++ msg (error args))%string ;;
           socket_close s (id (error args)) (msg (error args))) (arbitrated w s sk))
    with (socket_close s (id (error args)) (msg (error args)) w1).
  destruct (socket_close_own_listener w1 s
              (add_dataListener (length (conns w))
                 (add_closeListener (length (conns w)) sk))
              (length (conns w)) (built_connection s (clock w))
              (id (error args)) (msg (error args)))
    as (E1 & E2 & E3 & E4).
  - cbn. apply list_lookup_insert_eq. exact Hlt.
  - cbn. rewrite Hl. reflexivity.
  - cbn. apply list_lookup_middle. reflexivity.
  - reflexivity.
  - exact Hn.
  - unfold outcome, after in *. split; [exact E1|]. split; [exact E2|].
    split.
    + etransitivity; [exact E3|]. cbn. rewrite <- app_assoc. reflexivity.
    + etransitivity; [exact E4|]. cbn. rewrite length_app. cbn. lia.
Qed.

(** C1. In a reachable world, when a socket the transport has just accepted
    (no Connection listens to it yet) is handed to [_onConnectionAttempt]
    and no listener of CONNECTION_REQUEST calls [allow()] or [deny()], the
    call returns with the verdict denied and the error descriptor
    [{id: 100, msg: "Server Full"}], the socket is closed with that id and
    message, no CONNECT is fired, and [connectionList] is what it was: the
    new Connection is not in it. *)
Theorem attempt_unanswered (w : World) (s : SocketRef) (sk : Socket) :
  reachable w ->
  sockets w !! s = Some sk -> closeListeners sk = [] ->
  concat (requestListeners (server w)) = [] ->
  outcome (_onConnectionAttempt (Some s)) w = Return tt
  /\ isDenied (connectionRequestArgs (server (after (_onConnectionAttempt (Some s)) w)))
     = true
  /\ error (connectionRequestArgs (server (after (_onConnectionAttempt (Some s)) w)))
     = {| id := 100; msg := "Server Full" |}
  /\ trace (after (_onConnectionAttempt (Some s)) w)
     = trace w ++ [Fire CONNECTION_REQUEST RequestArgs;
                   SocketClose s 100 "Server Full"]
  /\ connectionList (server (after (_onConnectionAttempt (Some s)) w))
     = connectionList (server w)
  /\ ~ live (after (_onConnectionAttempt (Some s)) w) (length (conns w)).
Proof.
  intros Hr Hs Hl Hc. pose proof (reachable_unlisted w Hr) as Hn.
  assert (Ea : connectionRequestArgs (server (arbitrated w s sk))
               = {| _isAllowed := false; _isDenied := false; connection := None;
                    error := SERVER_FULL |}).
  { cbn. rewrite Hc. reflexivity. }
  destruct (attempt_denied w s sk [] Hn Hs Hl) as (E1 & E2 & E3 & _).
  - rewrite Hc. reflexivity.
  - rewrite Ea. reflexivity.
  - rewrite Ea in E3. unfold live. rewrite E2, Ea.
    repeat split; [exact E1 | exact E3 | exact Hn].
Qed.

Lemma attempt_unanswered_witness :
  trace (after (_onConnectionAttempt (Some 0%nat)) (run [NewSocket true] (initial 0)))
  = [Fire CONNECTION_REQUEST RequestArgs; SocketClose 0%nat 100 "Server Full"]
  /\ connectionList
       (server (after (_onConnectionAttempt (Some 0%nat))
                      (run [NewSocket true] (initial 0)))) = [].
Proof.
  destruct (attempt_unanswered (run [NewSocket true] (initial 0)) 0%nat
              (accepted_socket true)) as (_ & _ & _ & H1 & H2 & _).
  - exists 0, [NewSocket true]. reflexivity.
  - reflexivity.
  - reflexivity.
  - reflexivity.
  - split; [exact H1 | exact H2].
Defined.



(** ** Connection: disconnect twice *)

(** C7. On a Connection of a reachable world, [disconnect] with a non-null
    error returns normally, and a second [disconnect] then returns normally
    and leaves the world exactly as the first call left it: the same
    Connection and [connectionList], no further [close] of the socket and
    no further notification in the trace. *)
Theorem disconnect_idempotent (w : World) (c : ConnRef) (e e' : ErrorDescriptor) :
  reachable w -> (c < length (conns w))%nat ->
  outcome (disconnect c (Some e)) w = Return tt
  /\ disconnect c (Some e') (after (disconnect c (Some e)) w)
     = (Return tt, after (disconnect c (Some e)) w).
Proof.
  intros Hr Hc. pose proof (reachable_Inv w Hr) as HI.
  destruct (lookup_lt_is_Some_2 (conns w) c Hc) as [o Ho].
  destruct (socket o) as [s|] eqn:Hs.
  - destruct (disconnect_run w c o s e HI Ho Hs) as (o1 & Ho1 & E).
    unfold outcome, after. rewrite E. cbn [fst snd]. split; [reflexivity|].
    unfold disconnect, bind, getConn. cbn.
    rewrite list_lookup_insert_eq by (eapply lookup_lt_Some; exact Ho1).
    reflexivity.
  - assert (E : forall err, disconnect c err w = (Return tt, w)).
    { intros err. unfold disconnect, bind, getConn. rewrite Ho, Hs. reflexivity. }
    unfold outcome, after. rewrite !E. split; reflexivity.
Qed.

Lemma disconnect_idempotent_witness :
  disconnect 0%nat (Some banned) (w_disconnected true)
  = (Return tt, w_disconnected true).
Proof.
  refine (proj2 (disconnect_idempotent (w_connected true) 0%nat SESSION_TERMINATED
                   banned _ _)).
  - exists 0, [Listeners [[CallAllow]]; NewSocket true; OnConnectionAttempt (Some 0%nat)].
    reflexivity.
  - vm_compute. lia.
Defined.

(** ** The registry of live connections *)


(** On a transport whose 'close' comes after [close] returns, an explicit
    [disconnect] leaves the Connection in [connectionList], and the later
    'close' of the transport does not take it out. *)
Lemma disconnect_keeps_listed :
  live (w_disconnected false) 0%nat
  /\ disconnected (w_disconnected false) 0%nat
  /\ live (run [TransportClose 0%nat] (w_disconnected false)) 0%nat
  /\ ~ removed (run [TransportClose 0%nat] (w_disconnected false)) 0%nat.
Proof.
  split; [vm_compute; tauto|]. split.
  - eexists. split; vm_compute; reflexivity.
  - split; [vm_compute; tauto|].
    vm_compute. intros [H|[H|[H|[]]]]; discriminate H.
Qed.



(** * Further properties *)

(** ** The rule of admission *)

Lemma last_cases {A} (l : list A) : l = [] \/ exists l' a, l = l' ++ [a].
Proof.
  induction l as [|x l IH]; [left; reflexivity|]. right.
  destruct IH as [-> | (l' & a & ->)].
  - exists [], x. reflexivity.
  - exists (x :: l'), a. reflexivity.
Qed.

Lemma settled_verdict calls errs c :
  denies calls = map Some errs ->
  _isDenied (settled calls (initialized c)) = negb (match errs with [] => true | _ => false end)
  /\ error (settled calls (initialized c)) = final_error errs.
Proof.
  intros H. destruct (last_cases errs) as [-> | (errs' & e & ->)].
  - destruct (settled_no_deny calls (initialized c) H) as [H1 H2].
    rewrite H1, H2. split; reflexivity.
  - destruct (settled_last_deny calls errs' e (initialized c) H) as [H1 H2].
    rewrite H1, H2. unfold final_error. rewrite List.last_last.
    split; [destruct errs'; reflexivity | reflexivity].
Qed.

(** X1. The rule of admission, for any number of subscribers and calls (no
    [deny(null)] among them): the attempt on a socket just accepted returns
    and has cleared the reference of the arguments object; the new
    Connection is listed exactly when some subscriber called [allow()] and
    none called [deny]; then it is appended and one CONNECT is fired,
    otherwise the list is unchanged and the socket is closed with the error
    of the last [deny], or with "Server Full" when nobody denied. *)
Theorem attempt_verdict (w : World) (s : SocketRef) (sk : Socket)
    (errs : list ErrorDescriptor) :
  reachable w ->
  sockets w !! s = Some sk -> closeListeners sk = [] ->
  denies (concat (requestListeners (server w))) = map Some errs ->
  outcome (_onConnectionAttempt (Some s)) w = Return tt
  /\ connection (connectionRequestArgs (server (after (_onConnectionAttempt (Some s)) w)))
     = None
  /\ (live (after (_onConnectionAttempt (Some s)) w) (length (conns w))
      <-> existsb is_allow (concat (requestListeners (server w))) = true
          /\ errs = [])
  /\ (existsb is_allow (concat (requestListeners (server w))) = true -> errs = [] ->
        connectionList (server (after (_onConnectionAttempt (Some s)) w))
        = connectionList (server w) ++ [length (conns w)]
        /\ trace (after (_onConnectionAttempt (Some s)) w)
           = trace w ++ [Fire CONNECTION_REQUEST RequestArgs;
                         Fire CONNECT (Conn (length (conns w)))])
  /\ (existsb is_allow (concat (requestListeners (server w))) = false \/ errs <> [] ->
        connectionList (server (after (_onConnectionAttempt (Some s)) w))
        = connectionList (server w)
        /\ trace (after (_onConnectionAttempt (Some s)) w)
           = trace w ++ [Fire CONNECTION_REQUEST RequestArgs;
                         SocketClose s (id (final_error errs)) (msg (final_error errs))]).
Proof.
  intros Hr Hs Hl Hd. pose proof (reachable_unlisted w Hr) as Hn.
  set (calls := concat (requestListeners (server w))) in *.
  set (c := length (conns w)) in *.
  destruct (settled_verdict calls errs c Hd) as [V1 V2].
  pose proof (settled_isAllowed calls (initialized c)) as V3. cbn in V3.
  assert (Ed : isDenied (connectionRequestArgs (server (arbitrated w s sk)))
               = negb (existsb is_allow calls
                       && match errs with [] => true | _ => false end)).
  { unfold isDenied. cbn. fold calls c. rewrite V1, V3.
    destruct (existsb is_allow calls), errs; reflexivity. }
  assert (Ee : error (connectionRequestArgs (server (arbitrated w s sk)))
               = final_error errs) by exact V2.
  destruct (existsb is_allow calls) eqn:Ha; destruct errs as [|e0 errs0] eqn:Eerrs;
    cbn [negb andb] in Ed.
  - (* allowed, nobody denied *)
    assert (E : _onConnectionAttempt (Some s) w =
                (Return tt,
                 with_trace (fun t => t ++ [Fire CONNECT (Conn c)])
                   (with_server (fun sv => set_connectionList (connectionList sv ++ [c]) sv)
                      (with_console (fun l => l ++ ["connection attempt approved"])
                         (arbitrated w s sk))))).
    { rewrite (onConnectionAttempt_arbitrated w s sk [] Hs Hd). cbv zeta.
      rewrite Ed. reflexivity. }
    unfold outcome, after, live. rewrite E. cbn.
    split; [reflexivity|]. split; [reflexivity|]. split.
    + split; [intros _; split; reflexivity|]. intros _.
      apply in_app_iff. right. left. reflexivity.
    + split; [intros _ _; split; [reflexivity | rewrite <- app_assoc; reflexivity]|].
      intros [H|H]; [discriminate H | congruence].
  - destruct (attempt_denied w s sk (e0 :: errs0) Hn Hs Hl Hd Ed) as (E1 & E2 & E3 & _).
    rewrite Ee in E3. unfold live. rewrite E2.
    split; [exact E1|]. split; [reflexivity|]. split.
    + split; [intros H; exfalso; exact (Hn H) | intros [_ H]; discriminate H].
    + split; [intros _ H; discriminate H | intros _; split; [reflexivity | exact E3]].
  - destruct (attempt_denied w s sk [] Hn Hs Hl Hd Ed) as (E1 & E2 & E3 & _).
    rewrite Ee in E3. unfold live. rewrite E2.
    split; [exact E1|]. split; [reflexivity|]. split.
    + split; [intros H; exfalso; exact (Hn H) | intros [H _]; discriminate H].
    + split; [intros H; discriminate H | intros _; split; [reflexivity | exact E3]].
  - destruct (attempt_denied w s sk (e0 :: errs0) Hn Hs Hl Hd Ed) as (E1 & E2 & E3 & _).
    rewrite Ee in E3. unfold live. rewrite E2.
    split; [exact E1|]. split; [reflexivity|]. split.
    + split; [intros H; exfalso; exact (Hn H) | intros [H _]; discriminate H].
    + split; [intros H; discriminate H | intros _; split; [reflexivity | exact E3]].
Qed.

Lemma attempt_verdict_witness :
  connectionList
    (server (after (_onConnectionAttempt (Some 0%nat))
                   (run [Listeners [[CallAllow]; []; [CallAllow; CallAllow]];
                         NewSocket true] (initial 0))))
  = [0%nat].
Proof.
  destruct (attempt_verdict
              (run [Listeners [[CallAllow]; []; [CallAllow; CallAllow]];
                    NewSocket true] (initial 0))
              0%nat (accepted_socket true) []) as (_ & _ & _ & H & _).
  - exists 0, [Listeners [[CallAllow]; []; [CallAllow; CallAllow]]; NewSocket true].
    reflexivity.
  - reflexivity.
  - reflexivity.
  - reflexivity.
  - exact (proj1 (H eq_refl eq_refl)).
Defined.

(** X2. The arguments object is reused from one attempt to the next, and
    nothing an earlier attempt left in it is seen by a later one: whatever
    the verdict flags, the error and the reference it holds, the attempt
    runs exactly as it would with any other content. *)
Theorem attempt_forgets_previous_verdict (w : World) (s : SocketRef) (sk : Socket)
    (a : ConnectionRequestEventArgs) :
  sockets w !! s = Some sk ->
  _onConnectionAttempt (Some s) (with_server (set_connectionRequestArgs a) w)
  = _onConnectionAttempt (Some s) w.
Proof.
  intros Hs.
  assert (E : forall w0, sockets w0 !! s = Some sk ->
    _onConnectionAttempt (Some s) w0 =
    (fire_CONNECTION_REQUEST ;;
     onArgs (fun a => Return (clear_connection a)) ;;
     w' <- get ;;
     let args := connectionRequestArgs (server w') in
     if isDenied args then
       console_log ("connection attempt denied: " ++ msg (error args))%string ;;
       socket_close s (id (error args)) (msg (error args))
     else
       console_log "connection attempt approved" ;;
       modify (with_server (fun sv =>
                 set_connectionList (connectionList sv ++ [length (conns w0)]) sv)) ;;
       fire CONNECT (Conn (length (conns w0))))
      {| conns := conns w0 ++ [built_connection s (clock w0)];
         sockets := <[s := add_dataListener (length (conns w0))
                             (add_closeListener (length (conns w0)) sk)]> (sockets w0);
         server := {| connectionList := connectionList (server w0);
                      connectionRequestArgs := initialized (length (conns w0));
                      requestListeners := requestListeners (server w0) |};
         clock := clock w0; trace := trace w0;
         console := console w0 ++ ["detected connection attempt"] |}).
  { intros w0 H0. unfold _onConnectionAttempt. unfold bind at 1.
    cbn [console_log modify]. unfold bind at 1.
    rewrite (new_Connection_ok _ s sk) by exact H0.
    unfold bind at 1. cbn [onArgs initialize]. reflexivity. }
  etransitivity;
    [exact (E (with_server (set_connectionRequestArgs a) w) Hs)
    | symmetry; exact (E w Hs)].
Qed.

Lemma attempt_forgets_previous_verdict_witness :
  _onConnectionAttempt (Some 0%nat)
    (with_server (set_connectionRequestArgs
                    {| _isAllowed := true; _isDenied := true;
                       connection := Some 5%nat; error := banned |})
       (w_listening false))
  = _onConnectionAttempt (Some 0%nat) (w_listening false).
Proof.
  exact (attempt_forgets_previous_verdict (w_listening false) 0%nat
           (accepted_socket false) _ eq_refl).
Defined.

(** ** How a world can change *)

Lemma evolved_refl o : evolved o o.
Proof. unfold evolved. tauto. Qed.

Lemma evolved_trans o1 o2 o3 : evolved o1 o2 -> evolved o2 o3 -> evolved o1 o3.
Proof.
  intros (A1 & A2 & A3 & A4 & A5 & A6) (B1 & B2 & B3 & B4 & B5 & B6).
  unfold evolved. repeat split; try congruence.
  - destruct B5 as [B5|B5]; [rewrite B5; exact A5 | right; exact B5].
  - destruct B6 as [B6|B6]; [rewrite B6; exact A6 | right; exact B6].
Qed.

Lemma follows_length w w' : follows w w' -> (length (conns w) <= length (conns w'))%nat.
Proof.
  intros [H _].
  destruct (Nat.le_gt_cases (length (conns w)) (length (conns w'))) as [Hle|Hgt];
    [exact Hle|].
  exfalso. destruct (lookup_lt_is_Some_2 (conns w) (length (conns w')) Hgt) as [o Ho].
  destruct (H _ o Ho) as (o' & Ho' & _). apply lookup_lt_Some in Ho'. lia.
Qed.

Lemma follows_quiet w w' :
  (forall c o, conns w !! c = Some o ->
     exists o', conns w' !! c = Some o' /\ evolved o o') ->
  List.filter lifecycle (trace w') = List.filter lifecycle (trace w) ->
  follows w w'.
Proof.
  intros H E. split; [exact H|]. exists []. rewrite app_nil_r.
  split; [exact E|]. split; [constructor|]. split; intros ? [].
Qed.

Lemma follows_same_conns w w' :
  conns w' = conns w ->
  List.filter lifecycle (trace w') = List.filter lifecycle (trace w) ->
  follows w w'.
Proof.
  intros Hc E. apply follows_quiet; [|exact E].
  intros c o Ho. exists o. rewrite Hc. split; [exact Ho | apply evolved_refl].
Qed.

Lemma follows_refl w : follows w w.
Proof. apply follows_same_conns; reflexivity. Qed.

Lemma same_core_follows w w' : same_core w w' -> follows w w'.
Proof. intros (H1 & _ & _ & H4). apply follows_same_conns; assumption. Qed.

Lemma follows_trans w1 w2 w3 : follows w1 w2 -> follows w2 w3 -> follows w1 w3.
Proof.
  intros H12 H23. pose proof (follows_length _ _ H12) as Hlen.
  destruct H12 as [A (t1 & E1 & N1 & D1 & C1)].
  destruct H23 as [B (t2 & E2 & N2 & D2 & C2)].
  split.
  - intros c o Ho. destruct (A c o Ho) as (o2 & Ho2 & Ev2).
    destruct (B c o2 Ho2) as (o3 & Ho3 & Ev3).
    exists o3. split; [exact Ho3 | exact (evolved_trans _ _ _ Ev2 Ev3)].
  - exists (t1 ++ t2). split; [rewrite E2, E1, app_assoc; reflexivity|].
    split.
    + apply List.NoDup_app; [exact N1 | exact N2 |].
      intros ev H1 H2. apply (D2 ev H2). rewrite E1. apply in_app_iff. right. exact H1.
    + split.
      * intros ev Hin Hold. apply in_app_iff in Hin. destruct Hin as [Hin|Hin].
        -- exact (D1 ev Hin Hold).
        -- apply (D2 ev Hin). rewrite E1. apply in_app_iff. left. exact Hold.
      * intros c Hin. apply in_app_iff in Hin. destruct Hin as [Hin|Hin].
        -- exact (C1 c Hin).
        -- specialize (C2 c Hin). lia.
Qed.

Lemma follows_set_conn w c o o' :
  conns w !! c = Some o -> evolved o o' ->
  follows w (with_conns (fun h => <[c := o']> h) w).
Proof.
  intros Ho Ev. apply follows_quiet; [|reflexivity].
  intros x ox Hx. cbn. destruct (Nat.eq_dec c x) as [<-|Hne].
  - exists o'. rewrite list_lookup_insert_eq by (eapply lookup_lt_Some; exact Ho).
    split; [reflexivity | congruence].
  - exists ox. rewrite list_lookup_insert_ne by exact Hne.
    split; [exact Hx | apply evolved_refl].
Qed.

Lemma removeConnection_follows w conn :
  Registry w -> follows w (after (removeConnection conn) w).
Proof.
  intros R. destruct conn as [c|]; [|apply follows_refl].
  destruct (in_dec Nat.eq_dec c (connectionList (server w))) as [Hin|Hn].
  - destruct (In_split_first c _ Hin) as (l1 & l2 & E & Hn1).
    unfold after. rewrite (removeConnection_present w c l1 l2 E Hn1). cbn [snd].
    split.
    + intros x o Hx. exists o. split; [exact Hx | apply evolved_refl].
    + exists [Fire DISCONNECT (Conn c)]. cbn. rewrite List.filter_app. cbn.
      split; [reflexivity|]. split; [constructor; [intros []|constructor]|].
      split.
      * intros ev [<-|[]] Hold. apply removed_lifecycle in Hold.
        exact (proj2 (proj1 (reg_live w R c) Hin) Hold).
      * intros x [H|[]]. discriminate H.
  - unfold after. rewrite (removeConnection_absent w c Hn). cbn [snd].
    apply follows_same_conns; reflexivity.
Qed.

Lemma onSocketClosed_run w c o :
  conns w !! c = Some o ->
  _onSocketClosed c w =
  match sessionServer o with
  | Some ThisServer => removeConnection (Some c)
  | None => ret tt
  end (with_conns (fun h => <[c := set_socket None o]> h) w).
Proof.
  intros Ho. pose proof (lookup_lt_Some _ _ _ Ho) as Hlt.
  unfold _onSocketClosed, updConn, bind, getConn, modify. rewrite Ho. cbn.
  rewrite list_lookup_insert_eq by exact Hlt. cbn.
  destruct (sessionServer o) as [[]|]; reflexivity.
Qed.

Lemma evolved_set_socket o : evolved o (set_socket None o).
Proof. unfold evolved. cbn. tauto. Qed.

Lemma onSocketClosed_follows w c o :
  Registry w -> conns w !! c = Some o ->
  follows w (after (_onSocketClosed c) w).
Proof.
  intros R Ho. unfold after. rewrite (onSocketClosed_run w c o Ho).
  set (w1 := with_conns (fun h => <[c := set_socket None o]> h) w).
  assert (F1 : follows w w1) by exact (follows_set_conn w c o _ Ho (evolved_set_socket o)).
  assert (R1 : Registry w1).
  { apply (Registry_set_conn w c o); [exact R | exact Ho | discriminate]. }
  destruct (sessionServer o) as [[]|]; [|exact F1].
  apply follows_trans with w1; [exact F1|].
  exact (removeConnection_follows w1 (Some c) R1).
Qed.

Lemma forEach_onSocketClosed_follows ls : forall w,
  Inv w -> (forall c, In c ls -> (c < length (conns w))%nat) ->
  follows w (after (forEach ls _onSocketClosed) w)
  /\ (forall c, In c ls ->
        exists o', conns (after (forEach ls _onSocketClosed) w) !! c = Some o'
                   /\ socket o' = None).
Proof.
  induction ls as [|c ls IH]; intros w HI Hls.
  - split; [apply follows_refl | intros c []].
  - destruct (lookup_lt_is_Some_2 (conns w) c) as [o Ho].
    { apply Hls. left. reflexivity. }
    destruct (onSocketClosed_Inv w c o HI Ho) as (E1 & I1 & C1 & _).
    pose proof (onSocketClosed_follows w c o (proj1 HI) Ho) as F1.
    set (w1 := after (_onSocketClosed c) w) in *.
    assert (L1 : length (conns w1) = length (conns w)).
    { rewrite C1. apply length_insert. }
    destruct (IH w1 I1) as (F2 & S2).
    { intros x Hx. rewrite L1. apply Hls. right. exact Hx. }
    assert (Erun : forEach (c :: ls) _onSocketClosed w = forEach ls _onSocketClosed w1).
    { cbn [forEach].
      apply (outcome_bind (_onSocketClosed c) (fun _ => forEach ls _onSocketClosed)
               w tt w1).
      rewrite (run_eq (_onSocketClosed c) w), E1. reflexivity. }
    unfold after in *. rewrite Erun.
    split; [exact (follows_trans _ _ _ F1 F2)|].
    intros x [<-|Hin]; [|exact (S2 x Hin)].
    destruct (proj1 F2 c (set_socket None o)) as (o' & Ho' & Ev).
    { rewrite C1. apply list_lookup_insert_eq. eapply lookup_lt_Some. exact Ho. }
    exists o'. split; [exact Ho'|].
    destruct Ev as (_ & _ & _ & _ & [H|H] & _); [rewrite H; reflexivity | exact H].
Qed.

Lemma emit_close_follows w s sk :
  Inv w -> sockets w !! s = Some sk ->
  follows w (after (emit_close s) w)
  /\ (forall c, In c (closeListeners sk) ->
        exists o', conns (after (emit_close s) w) !! c = Some o' /\ socket o' = None).
Proof.
  intros HI Hs.
  assert (E : emit_close s w = forEach (closeListeners sk) _onSocketClosed w).
  { unfold emit_close, bind, getSocket. rewrite Hs. reflexivity. }
  unfold after. rewrite E.
  apply (forEach_onSocketClosed_follows (closeListeners sk) w HI).
  intros c Hc. exact (reg_listener w (proj1 HI) s sk c Hs Hc).
Qed.

Lemma socket_close_run w s sk code reason :
  sockets w !! s = Some sk ->
  socket_close s code reason w =
  match readyState sk with
  | OPEN =>
      if syncClose sk then
        emit_close s (with_sockets (fun h => <[s := set_readyState CLOSED sk]> h)
                        (after (effect (SocketClose s code reason)) w))
      else
        (Return tt,
         with_sockets (fun h => <[s := set_readyState CLOSING sk]> h)
           (after (effect (SocketClose s code reason)) w))
  | _ => (Return tt, after (effect (SocketClose s code reason)) w)
  end.
Proof.
  intros Hs. unfold socket_close, bind, effect, modify, getSocket. cbn. rewrite Hs.
  destruct (readyState sk); [|reflexivity..].
  destruct (syncClose sk); unfold updSocket, bind, getSocket, modify; cbn;
    rewrite Hs; reflexivity.
Qed.

Lemma socket_close_follows w s sk code reason :
  Inv w -> sockets w !! s = Some sk ->
  follows w (after (socket_close s code reason) w).
Proof.
  intros HI Hs. pose proof (lookup_lt_Some _ _ _ Hs) as Hlt.
  pose proof (Inv_effect w (SocketClose s code reason) eq_refl HI) as I0.
  unfold after at 1. rewrite (socket_close_run w s sk code reason Hs).
  set (w0 := after (effect (SocketClose s code reason)) w) in *.
  assert (F0 : follows w w0).
  { apply follows_same_conns; [reflexivity|]. cbn. rewrite List.filter_app. cbn.
    apply app_nil_r. }
  destruct (readyState sk).
  - destruct (syncClose sk).
    + pose proof (Inv_set_readyState w0 s sk CLOSED I0 Hs) as I1.
      destruct (emit_close_follows _ s (set_readyState CLOSED sk) I1) as [F1 _].
      { cbn. apply list_lookup_insert_eq. exact Hlt. }
      apply follows_trans with w0; [exact F0|].
      eapply follows_trans; [|exact F1].
      apply follows_same_conns; reflexivity.
    + cbn [snd]. apply follows_trans with w0; [exact F0|].
      apply follows_same_conns; reflexivity.
  - exact F0.
  - exact F0.
Qed.

Lemma transport_close_run w s sk :
  sockets w !! s = Some sk -> readyState sk <> CLOSED ->
  transport_close s w
  = emit_close s (with_sockets (fun h => <[s := set_readyState CLOSED sk]> h) w).
Proof.
  intros Hs Hrs. unfold transport_close, bind, getSocket. rewrite Hs.
  destruct (readyState sk); [| |congruence];
    unfold updSocket, bind, getSocket, modify; rewrite Hs; reflexivity.
Qed.

Lemma transport_close_idle w s :
  (forall sk, sockets w !! s = Some sk -> readyState sk = CLOSED) ->
  after (transport_close s) w = w.
Proof.
  intros H. unfold after, transport_close, bind, getSocket.
  destruct (sockets w !! s) as [sk|] eqn:Hs; [|reflexivity].
  rewrite (H sk eq_refl). reflexivity.
Qed.

Lemma transport_close_follows w s :
  Inv w -> follows w (after (transport_close s) w).
Proof.
  intros HI. destruct (sockets w !! s) as [sk|] eqn:Hs.
  - destruct (readyState sk) eqn:Hrs.
    1,2: unfold after; rewrite (transport_close_run w s sk Hs) by congruence;
         pose proof (Inv_set_readyState w s sk CLOSED HI Hs) as I1;
         destruct (emit_close_follows _ s (set_readyState CLOSED sk) I1) as [F1 _];
         [cbn; apply list_lookup_insert_eq; eapply lookup_lt_Some; exact Hs|];
         (eapply follows_trans; [|exact F1]); apply follows_same_conns; reflexivity.
    rewrite transport_close_idle; [apply follows_refl|].
    intros sk' H'. congruence.
  - rewrite transport_close_idle; [apply follows_refl|].
    intros sk' H'. congruence.
Qed.

Lemma disconnect_follows w c err : Inv w -> follows w (after (disconnect c err) w).
Proof.
  intros HI.
  destruct (conns w !! c) as [o|] eqn:Ho.
  2:{ unfold after, disconnect, bind, getConn. rewrite Ho. apply follows_refl. }
  destruct (socket o) as [s|] eqn:Hs.
  2:{ unfold after, disconnect, bind, getConn. rewrite Ho, Hs. apply follows_refl. }
  destruct err as [e|].
  2:{ unfold after, disconnect, bind, getConn. rewrite Ho, Hs. apply follows_refl. }
  destruct (disconnect_run w c o s e HI Ho Hs) as (o1 & Ho1 & E).
  unfold after at 1. rewrite E. cbn [snd].
  destruct (lookup_lt_is_Some_2 (sockets w) s) as [sk Hsk].
  { exact (reg_socket w (proj1 HI) c o s Ho Hs). }
  eapply follows_trans; [exact (socket_close_follows w s sk (id e) (msg e) HI Hsk)|].
  apply (follows_set_conn _ c o1); [exact Ho1|].
  unfold evolved. cbn. tauto.
Qed.

Lemma follows_grown w w' x :
  conns w' = conns w ++ x ->
  List.filter lifecycle (trace w') = List.filter lifecycle (trace w) ->
  follows w w'.
Proof.
  intros Hc E. apply follows_quiet; [|exact E].
  intros c o Ho. exists o. rewrite Hc.
  split; [apply lookup_app_l_Some; exact Ho | apply evolved_refl].
Qed.

Lemma onConnectionAttempt_follows w sock :
  Inv w -> (forall s, sock = Some s -> (s < length (sockets w))%nat) ->
  follows w (after (_onConnectionAttempt sock) w).
Proof.
  intros HI Hsock. destruct sock as [s|].
  2:{ apply same_core_follows. repeat split. }
  destruct (lookup_lt_is_Some_2 (sockets w) s) as [sk Hsk]; [apply Hsock; reflexivity|].
  set (c := length (conns w)) in *.
  set (w1 := {| conns := conns w ++ [built_connection s (clock w)];
                sockets := <[s := add_dataListener c (add_closeListener c sk)]> (sockets w);
                server := server w; clock := clock w; trace := trace w;
                console := console w ++ ["detected connection attempt"] |}).
  assert (HI1 : Inv w1).
  { assert (HI0 : Inv (with_console (fun l => l ++ ["detected connection attempt"]) w))
      by (apply (same_core_Inv w); [repeat split | exact HI]).
    split; [exact (Registry_built _ s sk _ (proj1 HI0) Hsk)|].
    exact (ClosedBut_built _ s s _ _ (proj2 HI0)). }
  assert (F1 : follows w w1) by (apply (follows_grown w w1 [built_connection s (clock w)]);
                                 reflexivity).
  assert (Hs1 : (s < length (sockets w1))%nat).
  { cbn. rewrite length_insert. eapply lookup_lt_Some. exact Hsk. }
  assert (E : _onConnectionAttempt (Some s) w =
    (onArgs (initialize (Some c)) ;;
     fire_CONNECTION_REQUEST ;;
     onArgs (fun a => Return (clear_connection a)) ;;
     w' <- get ;;
     let args := connectionRequestArgs (server w') in
     if isDenied args then
       console_log ("connection attempt denied: " ++ msg (error args))%string ;;
       socket_close s (id (error args)) (msg (error args))
     else
       console_log "connection attempt approved" ;;
       modify (with_server (fun sv =>
                 set_connectionList (connectionList sv ++ [c]) sv)) ;;
       fire CONNECT (Conn c)) w1).
  { unfold _onConnectionAttempt. unfold bind at 1. cbn [console_log modify].
    unfold bind at 1. rewrite (new_Connection_ok _ s sk) by exact Hsk.
    reflexivity. }
  unfold after at 1. rewrite E.
  assert (Hq : forall w', same_core w1 w' -> follows w w').
  { intros w' Hw'. exact (follows_trans _ _ _ F1 (same_core_follows _ _ Hw')). }
  apply (after_quiet_bind _ _ (follows w) w1 w1 (quiet_onArgs _) (same_core_refl w1));
    [|exact Hq].
  intros _ w2 H2.
  apply (after_quiet_bind _ _ (follows w) w1 w2 quiet_fire_CONNECTION_REQUEST H2);
    [|exact Hq].
  intros _ w3 H3.
  apply (after_quiet_bind _ _ (follows w) w1 w3 (quiet_onArgs _) H3); [|exact Hq].
  intros _ w4 H4.
  apply after_bind; [|intros e w' Ew'; discriminate Ew'].
  intros a w' Ew'. injection Ew' as <- <-. cbv zeta.
  destruct (isDenied (connectionRequestArgs (server w4))).
  - apply (after_quiet_bind _ _ (follows w) w1 w4 (quiet_console_log _) H4); [|exact Hq].
    intros _ w5 H5. pose proof (same_core_Inv w1 w5 H5 HI1) as HI5.
    destruct (lookup_lt_is_Some_2 (sockets w5) s) as [sk5 Hsk5].
    { destruct H5 as (_ & -> & _). exact Hs1. }
    apply follows_trans with w5; [exact (Hq w5 H5)|].
    exact (socket_close_follows w5 s sk5 _ _ HI5 Hsk5).
  - destruct H4 as (Hc4 & _ & _ & Ht4).
    change (follows w
              (with_trace (fun t => t ++ [Fire CONNECT (Conn c)])
                 (with_server (fun sv =>
                    set_connectionList (connectionList sv ++ [c]) sv)
                    (with_console (fun l => l ++ ["connection attempt approved"]) w4)))).
    split.
    + intros x o Hx. exists o. cbn. rewrite Hc4. cbn.
      split; [apply lookup_app_l_Some; exact Hx | apply evolved_refl].
    + exists [Fire CONNECT (Conn c)]. cbn. rewrite List.filter_app, Ht4. cbn.
      split; [reflexivity|]. split; [constructor; [intros []|constructor]|].
      split.
      * intros ev [<-|[]] Hold. apply approved_lifecycle in Hold.
        pose proof (reg_approved w (proj1 HI) c Hold). unfold c in *. lia.
      * intros x [Hx|[]]. injection Hx as <-. unfold c. lia.
Qed.

Lemma step_follows w st :
  Inv w -> admissible w st = true -> follows w (after (step st) w).
Proof.
  intros HI Had. destruct st as [sync|sock|conn|c err|s|subs|dt]; cbn [step].
  - apply follows_same_conns; reflexivity.
  - apply onConnectionAttempt_follows; [exact HI|].
    intros s ->. cbn in Had. apply Nat.ltb_lt. exact Had.
  - exact (removeConnection_follows w conn (proj1 HI)).
  - exact (disconnect_follows w c err HI).
  - exact (transport_close_follows w s HI).
  - apply follows_same_conns; reflexivity.
  - apply follows_same_conns; reflexivity.
Qed.

Lemma run_follows steps : forall w, Inv w -> follows w (run steps w).
Proof.
  induction steps as [|st steps IH]; intros w HI; [apply follows_refl|].
  cbn [run fold_left]. apply follows_trans with (exec w st); [|apply IH, exec_Inv, HI].
  unfold exec. destruct (admissible w st) eqn:E; [|apply follows_refl].
  exact (step_follows w st HI E).
Qed.

(** ** What no sequence of events does *)

Lemma reachable_follows w steps : reachable w -> follows w (run steps w).
Proof. intros Hr. apply run_follows. exact (reachable_Inv w Hr). Qed.

(** X3. No notification of CONNECT or DISCONNECT is fired twice: in every
    reachable world the CONNECT and DISCONNECT notifications of the trace
    are pairwise different, so a Connection is announced at most once and
    its loss is announced at most once. *)
Theorem notifications_once (w : World) :
  reachable w -> List.NoDup (List.filter lifecycle (trace w)).
Proof.
  intros (t & steps & <-).
  destruct (run_follows steps (initial t) (Inv_initial t)) as [_ (l & E & N & _)].
  rewrite E. exact N.
Qed.

Lemma notifications_once_witness :
  List.NoDup (List.filter lifecycle
                (trace (run [TransportClose 0%nat; RemoveConnection (Some 0%nat)]
                            (w_connected false)))).
Proof.
  apply notifications_once.
  exists 0, [Listeners [[CallAllow]]; NewSocket false; OnConnectionAttempt (Some 0%nat);
             TransportClose 0%nat; RemoveConnection (Some 0%nat)].
  reflexivity.
Defined.

(** X4. A Connection whose socket reference is cleared stays so: whatever
    happens afterwards, the object is still there with a null socket, and
    [isAlive()] returns [null] on it at any time. *)
Theorem never_resurrected (w : World) (c : ConnRef) (o : Connection)
    (steps : list Step) :
  reachable w -> conns w !! c = Some o -> socket o = None ->
  (exists o', conns (run steps w) !! c = Some o' /\ socket o' = None)
  /\ outcome (isAlive c) (run steps w) = Return JsNull.
Proof.
  intros Hr Ho Hs.
  destruct (proj1 (reachable_follows w steps Hr) c o Ho) as (o' & Ho' & Ev).
  assert (Hs' : socket o' = None).
  { destruct Ev as (_ & _ & _ & _ & [H|H] & _); [rewrite H; exact Hs | exact H]. }
  split; [exists o'; split; assumption|].
  unfold outcome. rewrite (isAlive_run _ c o' Ho'), Hs'. reflexivity.
Qed.

Lemma never_resurrected_witness :
  outcome (isAlive 0%nat)
          (run [NewSocket true; OnConnectionAttempt (Some 1%nat);
                OnConnectionAttempt (Some 0%nat)] w_dropped)
  = Return JsNull.
Proof.
  refine (proj2 (never_resurrected w_dropped 0%nat _ _ _ eq_refl eq_refl)).
  exists 0, [Listeners [[CallAllow]]; NewSocket false; OnConnectionAttempt (Some 0%nat);
             TransportClose 0%nat].
  reflexivity.
Defined.

(** X5. Nothing the session server or the Connection does writes
    [keepAlive] after the construction: whatever happens, the Connection
    keeps the time stamp it was built with, so from 5000 ms after its
    construction on [isAlive()] never returns [true]. *)
Theorem keepAlive_never_refreshed (w : World) (c : ConnRef) (o : Connection)
    (steps : list Step) :
  reachable w -> conns w !! c = Some o ->
  (exists o', conns (run steps w) !! c = Some o' /\ keepAlive o' = keepAlive o)
  /\ (5000 <= clock (run steps w) - keepAlive o ->
      exists v, outcome (isAlive c) (run steps w) = Return v /\ truthy v = false).
Proof.
  intros Hr Ho.
  destruct (proj1 (reachable_follows w steps Hr) c o Ho) as (o' & Ho' & Ev).
  destruct Ev as (Hk & _).
  split; [exists o'; split; assumption|].
  intros Ht. unfold outcome. rewrite (isAlive_run _ c o' Ho'). cbn [fst].
  eexists. split; [reflexivity|].
  destruct (socket o'); [|reflexivity]. cbn. rewrite Hk.
  apply Z.ltb_ge. exact Ht.
Qed.

Lemma keepAlive_never_refreshed_witness :
  exists v,
    outcome (isAlive 0%nat)
            (run [Tick 2500; NewSocket true; OnConnectionAttempt (Some 1%nat); Tick 2500]
                 (w_connected false))
    = Return v /\ truthy v = false.
Proof.
  refine (proj2 (keepAlive_never_refreshed (w_connected false) 0%nat _ _ _ eq_refl) _).
  - exists 0, [Listeners [[CallAllow]]; NewSocket false; OnConnectionAttempt (Some 0%nat)].
    reflexivity.
  - vm_compute. discriminate.
Defined.

(** X6. A Connection that exists and is not in [connectionList] (its
    attempt was denied, or it was removed) is never put into the list
    again, whatever happens afterwards. *)
Theorem unlisted_forever (w : World) (c : ConnRef) (steps : list Step) :
  reachable w -> (c < length (conns w))%nat -> ~ live w c ->
  ~ live (run steps w) c.
Proof.
  intros Hr Hc Hn Hl.
  pose proof (reachable_Inv w Hr) as [R _].
  pose proof (run_Inv steps w (reachable_Inv w Hr)) as [R' _].
  destruct (reachable_follows w steps Hr) as [_ (t & E & _ & _ & Cn)].
  destruct (proj1 (reg_live _ R' c) Hl) as [Ha Hnr].
  apply approved_lifecycle in Ha. rewrite E in Ha. apply in_app_iff in Ha.
  destruct Ha as [Ha|Ha].
  - apply approved_lifecycle in Ha. apply Hn. apply (reg_live w R c).
    split; [exact Ha|]. intros Hrm. apply Hnr. apply removed_lifecycle.
    rewrite E. apply in_app_iff. left. apply removed_lifecycle. exact Hrm.
  - specialize (Cn c Ha). lia.
Qed.

Lemma unlisted_forever_witness :
  ~ live (run [Listeners [[CallAllow]]; OnConnectionAttempt (Some 0%nat);
               TransportClose 0%nat]
              (run [NewSocket false; OnConnectionAttempt (Some 0%nat)] (initial 0)))
         0%nat.
Proof.
  apply unlisted_forever.
  - exists 0, [NewSocket false; OnConnectionAttempt (Some 0%nat)]. reflexivity.
  - vm_compute. lia.
  - vm_compute. tauto.
Defined.

(** ** send *)

Lemma send_run w c o data :
  conns w !! c = Some o ->
  send c data w =
  match socket o with
  | Some s => (Return tt, with_trace (fun t => t ++ [SocketWrite s data]) w)
  | None => (Return tt, w)
  end.
Proof.
  intros H. unfold send, bind, getConn. rewrite H. destruct (socket o); reflexivity.
Qed.

(** X7. [send(data)] writes the data once, to the socket of the Connection,
    and does nothing else; once the Connection was disconnected, or the
    transport closed its socket, [send] returns without writing anything
    and without an error. *)
Theorem send_contract (w : World) (c : ConnRef) (o : Connection) (data : string) :
  reachable w -> conns w !! c = Some o ->
  (forall s, socket o = Some s ->
     send c data w = (Return tt, with_trace (fun t => t ++ [SocketWrite s data]) w))
  /\ (forall e,
        send c data (after (disconnect c (Some e)) w)
        = (Return tt, after (disconnect c (Some e)) w))
  /\ (forall s sk,
        sockets w !! s = Some sk -> readyState sk <> CLOSED ->
        In c (closeListeners sk) ->
        send c data (after (transport_close s) w)
        = (Return tt, after (transport_close s) w)).
Proof.
  intros Hr Ho. pose proof (reachable_Inv w Hr) as HI. split; [|split].
  - intros s Hs. rewrite (send_run w c o data Ho), Hs. reflexivity.
  - intros e. destruct (socket o) as [s|] eqn:Hs.
    + destruct (disconnect_run w c o s e HI Ho Hs) as (o1 & Ho1 & E).
      unfold after at 1 2. rewrite E. cbn [snd].
      erewrite send_run
        by (cbn; apply list_lookup_insert_eq; eapply lookup_lt_Some; exact Ho1).
      reflexivity.
    + assert (E : disconnect c (Some e) w = (Return tt, w)).
      { unfold disconnect, bind, getConn. rewrite Ho, Hs. reflexivity. }
      unfold after. rewrite E. cbn [snd]. rewrite (send_run w c o data Ho), Hs.
      reflexivity.
  - intros s sk Hs Hrs Hin.
    pose proof (Inv_set_readyState w s sk CLOSED HI Hs) as I1.
    destruct (emit_close_follows _ s (set_readyState CLOSED sk) I1) as [_ S].
    { cbn. apply list_lookup_insert_eq. eapply lookup_lt_Some. exact Hs. }
    destruct (S c Hin) as (o' & Ho' & Hs').
    unfold after in *. rewrite (transport_close_run w s sk Hs Hrs).
    rewrite (send_run _ c o' data Ho'), Hs'. reflexivity.
Qed.

Lemma send_contract_witness :
  trace (after (send 0%nat "hello") (w_connected false))
  = trace (w_connected false) ++ [SocketWrite 0%nat "hello"]
  /\ send 0%nat "hello" (after (transport_close 0%nat) (w_connected false))
     = (Return tt, after (transport_close 0%nat) (w_connected false)).
Proof.
  destruct (send_contract (w_connected false) 0%nat (built_connection 0%nat 0) "hello")
    as (H1 & _ & H3).
  - exists 0, [Listeners [[CallAllow]]; NewSocket false; OnConnectionAttempt (Some 0%nat)].
    reflexivity.
  - reflexivity.
  - split.
    + exact (f_equal (fun r => trace (snd r)) (H1 0%nat eq_refl)).
    + refine (H3 0%nat _ eq_refl _ _).
      * cbn. discriminate.
      * cbn. left. reflexivity.
Defined.

(** ** removeConnection twice *)

(** X8. Removing a Connection a second time changes nothing but the
    console: in a reachable world, after [removeConnection(c)] a second
    [removeConnection(c)] returns, leaves the list and the objects as they
    are and fires no further DISCONNECT. *)
Theorem removeConnection_twice (w : World) (c : ConnRef) :
  reachable w ->
  outcome (removeConnection (Some c)) (after (removeConnection (Some c)) w) = Return tt
  /\ server (after (removeConnection (Some c)) (after (removeConnection (Some c)) w))
     = server (after (removeConnection (Some c)) w)
  /\ trace (after (removeConnection (Some c)) (after (removeConnection (Some c)) w))
     = trace (after (removeConnection (Some c)) w)
  /\ conns (after (removeConnection (Some c)) (after (removeConnection (Some c)) w))
     = conns (after (removeConnection (Some c)) w).
Proof.
  intros Hr. pose proof (reachable_Inv w Hr) as HI.
  pose proof (removeConnection_Inv w (Some c) HI) as [R1 _].
  set (w1 := after (removeConnection (Some c)) w) in *.
  assert (Hn : ~ live w1 c).
  { intros Hl. destruct (proj1 (reg_live w1 R1 c) Hl) as [Ha Hnr].
    destruct (in_dec Nat.eq_dec c (connectionList (server w))) as [Hin|Hno].
    - apply Hnr. destruct (In_split_first c _ Hin) as (l1 & l2 & E & Hn1).
      unfold w1, after, removed.
      rewrite (removeConnection_present w c l1 l2 E Hn1). cbn.
      apply in_app_iff. right. left. reflexivity.
    - apply Hno. unfold w1, after, live in Hl.
      rewrite (removeConnection_absent w c Hno) in Hl. exact Hl. }
  unfold outcome, after. rewrite (removeConnection_absent w1 c Hn).
  repeat split.
Qed.

Lemma removeConnection_twice_witness :
  trace (after (removeConnection (Some 0%nat)) w_removed) = trace w_removed.
Proof.
  destruct (removeConnection_twice (w_connected false) 0%nat) as (_ & _ & H & _).
  - exists 0, [Listeners [[CallAllow]]; NewSocket false; OnConnectionAttempt (Some 0%nat)].
    reflexivity.
  - exact H.
Defined.

(** ** onMessage *)

(** X9. One message handler at a time: [onMessage] replaces the handler,
    so after [onMessage(h1)] and [onMessage(h2)] received data reaches [h2]
    alone; [onMessage(null)] takes the handler away and data is dropped
    again; and data [JSON.parse] rejects raises the SyntaxError without the
    handler being called. *)
Theorem onMessage_contract (JSON_parse : string -> option Json) (w : World)
    (c : ConnRef) (o : Connection) (h1 h2 : HandlerRef) (data : string) :
  conns w !! c = Some o ->
  (forall parsed, JSON_parse data = Some parsed ->
     after (onMessage c (Some h1) ;; onMessage c (Some h2) ;;
            _onReceiveData JSON_parse c data) w
     = with_trace (fun t => t ++ [HandlerCall h2 c parsed])
         (after (onMessage c (Some h2)) w))
  /\ (onMessage c (Some h1) ;; onMessage c None ;; _onReceiveData JSON_parse c data) w
     = (Return tt, after (onMessage c None) w)
  /\ (JSON_parse data = None ->
      exists m,
        _onReceiveData JSON_parse c data (after (onMessage c (Some h1)) w)
        = (Throw (SyntaxError m), after (onMessage c (Some h1)) w)).
Proof.
  intros Ho. pose proof (lookup_lt_Some _ _ _ Ho) as Hlt.
  assert (E : forall v w0 o0, conns w0 !! c = Some o0 ->
            onMessage c v w0
            = (Return tt, with_conns (fun h => <[c := set_messageHandler v o0]> h) w0)).
  { intros v w0 o0 H0. unfold onMessage. apply updConn_run. exact H0. }
  assert (L : forall v, conns (with_conns (fun h => <[c := set_messageHandler v o]> h) w)
                        !! c = Some (set_messageHandler v o)).
  { intros v. cbn. apply list_lookup_insert_eq. exact Hlt. }
  split; [|split].
  - intros parsed Hp. unfold after, bind.
    rewrite (E _ w o Ho), (E _ _ _ (L (Some h1))), (E (Some h2) w o Ho). cbn.
    rewrite list_insert_insert_eq. unfold _onReceiveData, bind, getConn. cbn.
    rewrite list_lookup_insert_eq by exact Hlt. cbn. rewrite Hp. reflexivity.
  - unfold after, bind.
    rewrite (E _ w o Ho), (E _ _ _ (L (Some h1))), (E None w o Ho). cbn.
    rewrite list_insert_insert_eq. unfold _onReceiveData, bind, getConn. cbn.
    rewrite list_lookup_insert_eq by exact Hlt. reflexivity.
  - intros Hp. unfold after. rewrite (E _ w o Ho). cbn [snd].
    unfold _onReceiveData, bind, getConn. rewrite (L (Some h1)). cbn.
    rewrite Hp. eexists. reflexivity.
Qed.

Lemma onMessage_contract_witness :
  trace (after (onMessage 0%nat (Some 1%nat) ;; onMessage 0%nat (Some 2%nat) ;;
                _onReceiveData (fun d => Some d) 0%nat "[1]") (w_connected false))
  = trace (w_connected false) ++ [HandlerCall 2%nat 0%nat "[1]"].
Proof.
  destruct (onMessage_contract (fun d => Some d) (w_connected false) 0%nat
              (built_connection 0%nat 0) 1%nat 2%nat "[1]" eq_refl) as (H & _).
  exact (f_equal trace (H "[1]" eq_refl)).
Defined.

(** ** The transport closes the socket of a Connection *)

Lemma transport_close_single_run w s sk c o :
  sockets w !! s = Some sk -> readyState sk <> CLOSED -> closeListeners sk = [c] ->
  conns w !! c = Some o -> sessionServer o = Some ThisServer ->
  transport_close s w =
  (removeConnection (Some c) ;; ret tt)
    (with_conns (fun h => <[c := set_socket None o]> h)
       (with_sockets (fun h => <[s := set_readyState CLOSED sk]> h) w)).
Proof.
  intros Hs Hrs Hl Ho Hsv. pose proof (lookup_lt_Some _ _ _ Hs) as Hlt.
  rewrite (transport_close_run w s sk Hs Hrs).
  unfold emit_close, bind at 1, getSocket. cbn.
  rewrite list_lookup_insert_eq by exact Hlt. cbn. rewrite Hl. cbn [forEach].
  unfold bind at 1.
  rewrite (onSocketClosed_run _ c o) by exact Ho. rewrite Hsv.
  unfold bind. reflexivity.
Qed.

(** X10. The transport closes a socket that one Connection listens to, and
    the Connection still holds its session server.  If it is in
    [connectionList] it is taken out, the other entries stay, and exactly
    one DISCONNECT carrying it is fired; if it is not (its attempt was
    denied) nothing is fired and the server is unchanged.  Afterwards a
    second 'close' of that socket changes nothing, and [disconnect] on the
    Connection does nothing, whatever its argument. *)
Theorem transport_close_single (w : World) (s : SocketRef) (sk : Socket)
    (c : ConnRef) (o : Connection) :
  reachable w ->
  sockets w !! s = Some sk -> readyState sk <> CLOSED -> closeListeners sk = [c] ->
  conns w !! c = Some o -> sessionServer o = Some ThisServer ->
  outcome (transport_close s) w = Return tt
  /\ (live w c ->
        trace (after (transport_close s) w) = trace w ++ [Fire DISCONNECT (Conn c)]
        /\ ~ live (after (transport_close s) w) c
        /\ forall x, x <> c -> (live (after (transport_close s) w) x <-> live w x))
  /\ (~ live w c ->
        trace (after (transport_close s) w) = trace w
        /\ server (after (transport_close s) w) = server w)
  /\ after (transport_close s) (after (transport_close s) w)
     = after (transport_close s) w
  /\ (forall err,
        disconnect c err (after (transport_close s) w)
        = (Return tt, after (transport_close s) w)).
Proof.
  intros Hr Hs Hrs Hl Ho Hsv. pose proof (reachable_Inv w Hr) as [R _].
  pose proof (lookup_lt_Some _ _ _ Hs) as Hlt.
  pose proof (lookup_lt_Some _ _ _ Ho) as Hclt.
  pose proof (transport_close_single_run w s sk c o Hs Hrs Hl Ho Hsv) as E.
  set (w2 := with_conns (fun h => <[c := set_socket None o]> h)
               (with_sockets (fun h => <[s := set_readyState CLOSED sk]> h) w)) in *.
  assert (Tail : forall w', sockets w' = sockets w2 -> conns w' = conns w2 ->
            after (transport_close s) w' = w'
            /\ forall err, disconnect c err w' = (Return tt, w')).
  { intros w' Hs' Hc'. split.
    - apply transport_close_idle. intros sk' H'. rewrite Hs' in H'. cbn in H'.
      rewrite list_lookup_insert_eq in H' by exact Hlt. injection H' as <-. reflexivity.
    - intros err. unfold disconnect, bind, getConn. rewrite Hc'. cbn.
      rewrite list_lookup_insert_eq by exact Hclt. reflexivity. }
  destruct (in_dec Nat.eq_dec c (connectionList (server w))) as [Hin|Hn].
  - destruct (In_split_first c _ Hin) as (l1 & l2 & El & Hn1).
    assert (E' : transport_close s w =
                 (Return tt,
                  with_trace (fun t => t ++ [Fire DISCONNECT (Conn c)])
                    (with_server (set_connectionList (l1 ++ l2)) w2))).
    { rewrite E. unfold bind.
      rewrite (removeConnection_present w2 c l1 l2 El Hn1). reflexivity. }
    assert (Eo : outcome (transport_close s) w = Return tt)
      by (unfold outcome; rewrite E'; reflexivity).
    assert (Ea : after (transport_close s) w =
                 with_trace (fun t => t ++ [Fire DISCONNECT (Conn c)])
                   (with_server (set_connectionList (l1 ++ l2)) w2))
      by (unfold after; rewrite E'; reflexivity).
    rewrite Eo, !Ea.
    split; [reflexivity|]. split; [|split; [intros H; contradiction|]].
    + intros _. split; [reflexivity|].
      destruct R as [R1 _ _ _ _ _]. rewrite El in R1.
      pose proof (List.NoDup_remove_2 _ _ _ R1) as N2.
      split; [exact N2|].
      intros x Hx. unfold live. cbn. rewrite El, !in_app_iff. cbn.
      split; [tauto|]. intros [?|[?|?]]; [tauto|congruence|tauto].
    + apply Tail; reflexivity.
  - assert (E' : transport_close s w =
                 (Return tt,
                  with_console (fun l => l ++
                    ["SessionServer.removeConnection - Specified connection could not be found."])
                    w2)).
    { rewrite E. unfold bind. rewrite (removeConnection_absent w2 c Hn). reflexivity. }
    assert (Eo : outcome (transport_close s) w = Return tt)
      by (unfold outcome; rewrite E'; reflexivity).
    assert (Ea : after (transport_close s) w =
                 with_console (fun l => l ++
                   ["SessionServer.removeConnection - Specified connection could not be found."])
                   w2)
      by (unfold after; rewrite E'; reflexivity).
    rewrite Eo, !Ea.
    split; [reflexivity|]. split; [intros H; contradiction|].
    split; [intros _; split; reflexivity|].
    apply Tail; reflexivity.
Qed.

Lemma transport_close_single_witness :
  trace (after (transport_close 0%nat) (w_connected false))
  = trace (w_connected false) ++ [Fire DISCONNECT (Conn 0%nat)]
  /\ disconnect 0%nat None (after (transport_close 0%nat) (w_connected false))
     = (Return tt, after (transport_close 0%nat) (w_connected false)).
Proof.
  destruct (transport_close_single (w_connected false) 0%nat
              {| syncClose := false; readyState := OPEN;
                 closeListeners := [0%nat]; dataListeners := [0%nat] |}
              0%nat (built_connection 0%nat 0)) as (_ & H1 & _ & _ & H4).
  - exists 0, [Listeners [[CallAllow]]; NewSocket false; OnConnectionAttempt (Some 0%nat)].
    reflexivity.
  - reflexivity.
  - discriminate.
  - reflexivity.
  - reflexivity.
  - reflexivity.
  - split; [|exact (H4 None)].
    refine (proj1 (H1 _)). vm_compute. tauto.
Defined.

(** ** disconnect on a listed Connection *)

Lemma emit_close_single_run w s sk c o :
  sockets w !! s = Some sk -> closeListeners sk = [c] -> conns w !! c = Some o ->
  emit_close s w =
  (match sessionServer o with
   | Some ThisServer => removeConnection (Some c)
   | None => ret tt
   end ;; ret tt) (with_conns (fun h => <[c := set_socket None o]> h) w).
Proof.
  intros Hs Hl Ho. unfold emit_close, bind at 1, getSocket. rewrite Hs, Hl.
  cbn [forEach]. unfold bind at 1.
  rewrite (onSocketClosed_run _ c o) by exact Ho.
  unfold bind. reflexivity.
Qed.

(** X11. [disconnect] on a Connection of [connectionList], the only
    listener of its open socket.  When the transport emits 'close' within
    [close()], the socket is closed with the error, the Connection is taken
    out of the list and one DISCONNECT is fired.  When the transport emits
    'close' later, the socket is closed with the error, no DISCONNECT is
    fired and the Connection stays in the list; the 'close' that follows
    finds the session server reference cleared, fires nothing and leaves
    the Connection in the list. *)
Theorem disconnect_listed (w : World) (c : ConnRef) (o : Connection)
    (s : SocketRef) (sk : Socket) (e : ErrorDescriptor) :
  conns w !! c = Some o -> socket o = Some s -> sessionServer o = Some ThisServer ->
  sockets w !! s = Some sk -> readyState sk = OPEN -> closeListeners sk = [c] ->
  List.NoDup (connectionList (server w)) -> live w c ->
  outcome (disconnect c (Some e)) w = Return tt
  /\ (syncClose sk = true ->
        trace (after (disconnect c (Some e)) w)
        = trace w ++ [SocketClose s (id e) (msg e); Fire DISCONNECT (Conn c)]
        /\ ~ live (after (disconnect c (Some e)) w) c)
  /\ (syncClose sk = false ->
        trace (after (disconnect c (Some e)) w)
        = trace w ++ [SocketClose s (id e) (msg e)]
        /\ live (after (disconnect c (Some e)) w) c
        /\ outcome (transport_close s) (after (disconnect c (Some e)) w) = Return tt
        /\ trace (after (transport_close s) (after (disconnect c (Some e)) w))
           = trace (after (disconnect c (Some e)) w)
        /\ live (after (transport_close s) (after (disconnect c (Some e)) w)) c).
Proof.
  intros Ho Hso Hsv Hs Hrs Hl Hnd Hlive.
  pose proof (lookup_lt_Some _ _ _ Hs) as Hlt.
  pose proof (lookup_lt_Some _ _ _ Ho) as Hclt.
  set (w0 := after (effect (SocketClose s (id e) (msg e))) w).
  assert (Ed : disconnect c (Some e) w =
               (socket_close s (id e) (msg e) ;;
                updConn c (set_sessionServer None) ;;
                updConn c (set_socket None)) w).
  { unfold disconnect, bind at 1, getConn. rewrite Ho, Hso. reflexivity. }
  assert (Esc : socket_close s (id e) (msg e) w =
                if syncClose sk then
                  emit_close s (with_sockets (fun h => <[s := set_readyState CLOSED sk]> h) w0)
                else
                  (Return tt,
                   with_sockets (fun h => <[s := set_readyState CLOSING sk]> h) w0)).
  { rewrite (socket_close_run w s sk _ _ Hs), Hrs. reflexivity. }
  destruct (syncClose sk) eqn:Hsync.
  - destruct (In_split_first c _ Hlive) as (l1 & l2 & El & Hn1).
    set (w1 := with_sockets (fun h => <[s := set_readyState CLOSED sk]> h) w0) in *.
    set (w2 := with_conns (fun h => <[c := set_socket None o]> h) w1).
    set (w3 := with_trace (fun t => t ++ [Fire DISCONNECT (Conn c)])
                 (with_server (set_connectionList (l1 ++ l2)) w2)).
    assert (E1 : socket_close s (id e) (msg e) w = (Return tt, w3)).
    { rewrite Esc.
      rewrite (emit_close_single_run w1 s (set_readyState CLOSED sk) c o);
        [| cbn; apply list_lookup_insert_eq; exact Hlt | exact Hl | exact Ho].
      rewrite Hsv. unfold bind.
      erewrite removeConnection_present; [| exact El | exact Hn1]. reflexivity. }
    assert (E : disconnect c (Some e) w =
                (Return tt,
                 with_conns (fun h => <[c := set_socket None
                                              (set_sessionServer None (set_socket None o))]> h)
                   w3)).
    { rewrite Ed. unfold bind at 1. rewrite E1. unfold bind.
      rewrite (updConn_run w3 c (set_socket None o))
        by (cbn; apply list_lookup_insert_eq; exact Hclt).
      erewrite updConn_run
        by (cbn; apply list_lookup_insert_eq; rewrite length_insert; exact Hclt).
      cbn. rewrite list_insert_insert_eq. reflexivity. }
    unfold outcome, after. rewrite E. cbn [fst snd].
    split; [reflexivity|]. split; [|intros H; discriminate H].
    intros _. split.
    + cbn. rewrite <- app_assoc. reflexivity.
    + unfold live. cbn. rewrite El in Hnd. exact (List.NoDup_remove_2 _ _ _ Hnd).
  - set (w1 := with_sockets (fun h => <[s := set_readyState CLOSING sk]> h) w0) in *.
    set (o2 := set_socket None (set_sessionServer None o)).
    set (w2 := with_conns (fun h => <[c := o2]> h) w1).
    assert (E : disconnect c (Some e) w = (Return tt, w2)).
    { rewrite Ed. unfold bind at 1. rewrite Esc. unfold bind.
      rewrite (updConn_run w1 c o) by exact Ho.
      erewrite updConn_run by (cbn; apply list_lookup_insert_eq; exact Hclt).
      cbn. rewrite list_insert_insert_eq. reflexivity. }
    assert (Et : transport_close s w2 =
                 (Return tt,
                  with_conns (fun h => <[c := set_socket None o2]> h)
                    (with_sockets
                       (fun h => <[s := set_readyState CLOSED (set_readyState CLOSING sk)]> h)
                       w2))).
    { rewrite (transport_close_run w2 s (set_readyState CLOSING sk));
        [| cbn; apply list_lookup_insert_eq; exact Hlt | discriminate].
      rewrite (emit_close_single_run _ s
                 (set_readyState CLOSED (set_readyState CLOSING sk)) c o2);
        [| cbn; apply list_lookup_insert_eq; rewrite length_insert; exact Hlt
         | exact Hl
         | cbn; apply list_lookup_insert_eq; exact Hclt].
      reflexivity. }
    assert (Eo : outcome (disconnect c (Some e)) w = Return tt)
      by (unfold outcome; rewrite E; reflexivity).
    assert (Ea : after (disconnect c (Some e)) w = w2)
      by (unfold after; rewrite E; reflexivity).
    rewrite Eo, !Ea. unfold outcome, after. rewrite Et. cbn [fst snd].
    split; [reflexivity|]. split; [intros H; discriminate H|].
    intros _. repeat split; exact Hlive.
Qed.

Lemma disconnect_listed_witness :
  ~ live (after (disconnect 0%nat (Some SESSION_TERMINATED)) (w_connected true)) 0%nat
  /\ live (after (transport_close 0%nat)
                 (after (disconnect 0%nat (Some SESSION_TERMINATED)) (w_connected false)))
          0%nat.
Proof.
  split.
  - destruct (disconnect_listed (w_connected true) 0%nat (built_connection 0%nat 0)
                0%nat
                {| syncClose := true; readyState := OPEN;
                   closeListeners := [0%nat]; dataListeners := [0%nat] |}
                SESSION_TERMINATED eq_refl eq_refl eq_refl eq_refl eq_refl eq_refl)
      as (_ & H & _).
    + vm_compute. constructor; [intros []|constructor].
    + vm_compute. tauto.
    + exact (proj2 (H eq_refl)).
  - destruct (disconnect_listed (w_connected false) 0%nat (built_connection 0%nat 0)
                0%nat
                {| syncClose := false; readyState := OPEN;
                   closeListeners := [0%nat]; dataListeners := [0%nat] |}
                SESSION_TERMINATED eq_refl eq_refl eq_refl eq_refl eq_refl eq_refl)
      as (_ & _ & H).
    + vm_compute. constructor; [intros []|constructor].
    + vm_compute. tauto.
    + exact (proj2 (proj2 (proj2 (proj2 (H eq_refl))))).
Defined.

(** ** An attempt without a socket *)

(** X12. [_onConnectionAttempt(null)] fails in the constructor of the
    Connection: the Error is thrown before the arguments object is
    initialized or any listener is called, so nothing is built, listed,
    fired or closed; only the first console line is written. *)
Theorem attempt_null_socket (w : World) :
  _onConnectionAttempt None w
  = (Throw (Error "Cannot create connection without a valid socket."),
     with_console (fun l => l ++ ["detected connection attempt"]) w).
Proof. reflexivity. Qed.
